(** * example01: CPU versus OpenCL vector addition

    A shallow embedding of [example01.cpp]: the host routine [main], the
    CPU loop nest of [timeAddVectorsCPU] and the two device kernels
    [looped_add] and [add] of the embedded OpenCL program.

    - a C [int] is a [Z] in the 32-bit two's complement range, with the
      wrap-around of every arithmetic operation written out;
    - device memory is a finite map from buffer handles to [int] arrays, so
      that two kernel arguments may name the same buffer;
    - an access outside an array, like a division by zero, is undefined
      behaviour: the computation has no result ([None]). *)

From Stdlib Require Import ZArith Lia List SpecFloat Ascii.
From stdpp Require Import base option list gmap strings.

Local Open Scope Z_scope.

(** ** 32-bit [int] arithmetic *)

Module Int.

Definition min_int : Z := - 2 ^ 31.
Definition max_int : Z := 2 ^ 31 - 1.

Definition in_range (z : Z) : Prop := min_int <= z <= max_int.

(** Reduction of a mathematical integer into the range of [int]. *)
Definition wrap (z : Z) : Z := (z + 2 ^ 31) mod 2 ^ 32 - 2 ^ 31.

Definition add (a b : Z) : Z := wrap (a + b).
Definition sub (a b : Z) : Z := wrap (a - b).
Definition mul (a b : Z) : Z := wrap (a * b).

(** [a / b] truncates toward zero; it is undefined for [b = 0], and for
    the one quotient that is not an [int]. *)
Definition div (a b : Z) : option Z :=
  if decide (b = 0 ∨ (a = min_int ∧ b = -1)) then None
  else Some (wrap (Z.quot a b)).

End Int.

(** ** Device memory *)

Definition handle := nat.
Abbreviation memory := (gmap handle (list Z)).

(** ** Arrays of [int]

    [a[i]] as an rvalue, and [a[i] = x]. *)

Definition array_get (a : list Z) (i : Z) : option Z :=
  if decide (0 <= i) then a !! Z.to_nat i else None.

Definition array_set (a : list Z) (i x : Z) : option (list Z) :=
  if decide (0 <= i < Z.of_nat (length a))
  then Some (<[Z.to_nat i := x]> a)
  else None.

(** The same through a pointer into device memory. *)

Definition load (m : memory) (p : handle) (i : Z) : option Z :=
  l ← m !! p; array_get l i.

Definition store (p : handle) (i : Z) (x : Z) (m : memory) : option memory :=
  l ← m !! p; l' ← array_set l i x; Some (<[p := l']> m).

(** ** Loops

    [for (j = start; j < stop; j++) body] runs its body
    [max 0 (stop - start)] times, on [start], [start + 1], ... *)

Fixpoint for_iter {S : Type} (count : nat) (j : Z)
    (body : Z → S → option S) (s : S) : option S :=
  match count with
  | O => Some s
  | Datatypes.S count' => s' ← body j s; for_iter count' (Int.add j 1) body s'
  end.

Definition for_loop {S : Type} (start stop : Z)
    (body : Z → S → option S) (s : S) : option S :=
  for_iter (Z.to_nat (stop - start)) start body s.

(** ** The kernels (lines 60-92)

    A kernel is given by what one work-item does: [gid] is
    [get_global_id(0)] and [gsize] is [get_global_size(0)]. *)

Record kernel_args := KernelArgs {
  arg_v1 : handle;
  arg_v2 : handle;
  arg_v3 : handle;
  arg_constants : handle
}.

(** [v3[j] = v1[j] + v2[j];] *)
Definition add_element (a : kernel_args) (j : Z) (m : memory) : option memory :=
  x ← load m (arg_v1 a) j;
  y ← load m (arg_v2 a) j;
  store (arg_v3 a) j (Int.add x y) m.

(** Lines 68-70 and 86-88: the elements of one work-item, from [start]
    up to [stop]. *)
Definition item_range (n Nthreads ID : Z) : option (Z * Z) :=
  ratio ← Int.div n Nthreads;
  let start := Int.mul ratio ID in
  let stop := Int.mul ratio (Int.add ID 1) in
  Some (start, stop).

Definition looped_add (gid gsize : Z) (a : kernel_args) (m : memory)
    : option memory :=
  let ID := Int.wrap gid in
  let Nthreads := Int.wrap gsize in
  n ← load m (arg_constants a) 0;
  k ← load m (arg_constants a) 1;
  '(start, stop) ← item_range n Nthreads ID;
  for_loop 0 k (λ i, for_loop start stop (add_element a)) m.

Definition add (gid gsize : Z) (a : kernel_args) (m : memory)
    : option memory :=
  let ID := Int.wrap gid in
  let Nthreads := Int.wrap gsize in
  n ← load m (arg_constants a) 0;
  '(start, stop) ← item_range n Nthreads ID;
  for_loop start stop (add_element a) m.

Definition kernel := Z → Z → kernel_args → memory → option memory.

(** [body] on each element of a list in turn. *)
Fixpoint each {S : Type} (body : Z → S → option S) (js : list Z) (s : S)
    : option S :=
  match js with
  | [] => Some s
  | j :: rest => s' ← body j s; each body rest s'
  end.

(** Run the work-items named by [schedule], one after the other. *)
Definition run_items (kern : kernel) (schedule : list Z) (gsize : Z)
    (a : kernel_args) (m : memory) : option memory :=
  each (λ gid, kern gid gsize a) schedule m.

(** ** Times

    [double] and [float] are the IEEE 754 binary64 and binary32 formats,
    both carried by [spec_float]. *)

Module Time.

Definition double_prec : Z := 53.
Definition double_emax : Z := 1024.
Definition float_prec : Z := 24.
Definition float_emax : Z := 128.

(** [(double) z] for an integer [z]. *)
Definition double_of_Z (z : Z) : spec_float :=
  binary_normalize double_prec double_emax z 0 false.

(** The conversion of [float x = d;] for a [double d]. *)
Definition float_of_double (d : spec_float) : spec_float :=
  match d with
  | S754_finite s m e => binary_round float_prec float_emax s m e
  | _ => d
  end.

Definition div (x y : spec_float) : spec_float :=
  SFdiv double_prec double_emax x y.

(** [x > y] *)
Definition gt (x y : spec_float) : bool := SFltb y x.

(** [x <= y] *)
Definition le (x y : spec_float) : bool := SFleb x y.

Definition one : spec_float := double_of_Z 1.

End Time.

(** ** The host

    What the program obtains from outside: the OpenCL installation, the
    result of building the kernels, the processor clock, and the contents
    of objects it reads before writing them. *)

Definition device := nat.

Record platform := Platform {
  (* getDevices(CL_DEVICE_TYPE_ALL, ...) *)
  platform_devices : list device
}.

Definition CL_SUCCESS : Z := 0.
Definition CL_TRUE : bool := true.
Definition sizeof_int : Z := 4.

Record env := Env {
  (* cl::Platform::get *)
  env_platforms : list platform;
  (* program.build and CL_PROGRAM_BUILD_LOG *)
  env_build_status : Z;
  env_build_log : string;
  (* the successive values of std::clock(), and CLOCKS_PER_SEC *)
  env_clock : nat → Z;
  env_CLOCKS_PER_SEC : Z;
  (* the i-th element of the uninitialised array or buffer of that name *)
  env_indeterminate : string → Z → Z
}.

Definition uninitialised (e : env) (name : string) (n : Z) : list Z :=
  env_indeterminate e name <$> seqZ 0 n.

(** What is sent to [std::cout], one item per [<<]. *)
Inductive chunk :=
  | Text (s : string)
  | Float (x : spec_float)
  | Double (x : spec_float)
  | Endl.

Inductive kernel_name := Kernel_looped_add | Kernel_add.

Inductive host_array := Host_A | Host_B | Host_C | Host_constants.

Inductive mem_flags := CL_MEM_READ_WRITE | CL_MEM_READ_ONLY.

(** The calls on the context and on the command queue, as the host
    issues them. [blocking] is the flag passed, if the call has one. *)
Inductive cl_call :=
  | CreateBuffer (h : handle) (flags : mem_flags) (size : Z)
  | EnqueueWriteBuffer (h : handle) (blocking : bool) (offset size : Z)
      (src : host_array)
  | EnqueueReadBuffer (h : handle) (blocking : bool) (offset size : Z)
      (dst : host_array)
  | EnqueueNDRangeKernel (kern : kernel_name) (global : Z) (a : kernel_args).

Record host_state := HostState {
  host_stdout : list chunk;
  host_device : memory;
  host_next_handle : handle;
  host_calls : list cl_call;
  host_clock_reads : nat
}.

Definition initial_state : host_state :=
  {| host_stdout := []; host_device := ∅; host_next_handle := 0%nat;
     host_calls := [];
     host_clock_reads := 0%nat |}.

(** A host computation returns, leaves through [exit], or is undefined. *)
Inductive result (A : Type) :=
  | Done (a : A) (s : host_state)
  | Exit (code : Z) (s : host_state)
  | Undefined.
Arguments Done {A} a s.
Arguments Exit {A} code s.
Arguments Undefined {A}.

Definition host (A : Type) : Type := host_state → result A.

#[export] Instance host_ret : MRet host := λ A a s, Done a s.

#[export] Instance host_bind : MBind host := λ A B f c s,
  match c s with
  | Done a s' => f a s'
  | Exit code s' => Exit code s'
  | Undefined => Undefined
  end.

#[export] Instance host_fmap : FMap host := λ A B f c, a ← c; mret (f a).

Definition exit {A : Type} (code : Z) : host A := λ s, Exit code s.

Definition undefined {A : Type} : host A := λ _, Undefined.

(** A computation on local variables only. *)
Definition local {A : Type} (o : option A) : host A :=
  match o with Some a => mret a | None => undefined end.

Definition print (c : chunk) : host unit := λ s,
  Done tt {| host_stdout := host_stdout s ++ [c];
             host_device := host_device s;
             host_next_handle := host_next_handle s;
             host_calls := host_calls s;
             host_clock_reads := host_clock_reads s |}.

Definition clock (e : env) : host Z := λ s,
  Done (env_clock e (host_clock_reads s))
       {| host_stdout := host_stdout s;
          host_device := host_device s;
          host_next_handle := host_next_handle s;
          host_calls := host_calls s;
          host_clock_reads := S (host_clock_reads s) |}.

Definition issue (c : cl_call) (m : memory) (s : host_state) : host_state :=
  {| host_stdout := host_stdout s;
     host_device := m;
     host_next_handle := host_next_handle s;
     host_calls := host_calls s ++ [c];
     host_clock_reads := host_clock_reads s |}.

(** [v[i]] on a [std::vector]. *)
Definition vector_at {A : Type} (v : list A) (i : nat) : host A :=
  local (v !! i).

(** [cl::Buffer(context, flags, size)]: the next handle, on [size] bytes
    of unspecified contents. *)
Definition create_buffer (e : env) (name : string) (flags : mem_flags)
    (size : Z) : host handle := λ s,
  let h := host_next_handle s in
  Done h {| host_stdout := host_stdout s;
            host_device :=
              <[h := uninitialised e name (size `quot` sizeof_int)]>
                (host_device s);
            host_next_handle := S h;
            host_calls := host_calls s ++ [CreateBuffer h flags size];
            host_clock_reads := host_clock_reads s |}.

(** [queue.enqueueWriteBuffer(buffer, blocking, offset, size, ptr)] copies
    [size] bytes of the host array into the buffer. A region that does not
    lie in the buffer is refused with a status, which the program does
    not look at. *)
Definition enqueueWriteBuffer (h : handle) (blocking : bool)
    (offset size : Z) (name : host_array) (src : list Z) : host unit := λ s,
  match host_device s !! h with
  | None => Undefined
  | Some l =>
      let first := Z.to_nat (offset `quot` sizeof_int) in
      let count := Z.to_nat (size `quot` sizeof_int) in
      if decide (count ≤ length src)%nat then
        let l' :=
          if decide (0 <= offset ∧ 0 <= size ∧
                     offset + size <= sizeof_int * Z.of_nat (length l))
          then list_inserts first (take count src) l
          else l in
        Done tt (issue (EnqueueWriteBuffer h blocking offset size name)
                   (<[h := l']> (host_device s)) s)
      else Undefined
  end.

(** [queue.enqueueReadBuffer(buffer, blocking, offset, size, ptr)] copies
    [size] bytes of the buffer into the host array, which it returns. *)
Definition enqueueReadBuffer (h : handle) (blocking : bool)
    (offset size : Z) (name : host_array) (dst : list Z)
    : host (list Z) := λ s,
  match host_device s !! h with
  | None => Undefined
  | Some l =>
      let first := Z.to_nat (offset `quot` sizeof_int) in
      let count := Z.to_nat (size `quot` sizeof_int) in
      if decide (count ≤ length dst)%nat then
        let dst' :=
          if decide (0 <= offset ∧ 0 <= size ∧
                     offset + size <= sizeof_int * Z.of_nat (length l))
          then list_inserts 0 (take count (drop first l)) dst
          else dst in
        Done dst' (issue (EnqueueReadBuffer h blocking offset size name)
                     (host_device s) s)
      else Undefined
  end.

Definition kernel_of (name : kernel_name) : kernel :=
  match name with
  | Kernel_looped_add => looped_add
  | Kernel_add => add
  end.

(** [cl::KernelFunctor(cl::Kernel(program, name), queue, cl::NullRange,
    cl::NDRange(global), cl::NullRange)] *)
Record KernelFunctor := Functor {
  functor_kernel : kernel_name;
  functor_global : Z
}.

(** [f(v1, v2, v3, constants)] enqueues the kernel on the whole range.
    The work-items are run here one after the other, in the order of their
    global id; [launch_order_irrelevant], [add_interleaved] and
    [looped_add_interleaved] show that neither their order nor the
    interleaving of their assignments changes what a launch of the program
    leaves in memory. *)
Definition call (f : KernelFunctor) (a : kernel_args) : host unit := λ s,
  match run_items (kernel_of (functor_kernel f))
          (seqZ 0 (functor_global f)) (functor_global f) a
          (host_device s) with
  | Some m =>
      Done tt (issue (EnqueueNDRangeKernel (functor_kernel f)
                        (functor_global f) a) m s)
  | None => Undefined
  end.

Fixpoint host_for_iter (count : nat) (i : Z) (body : Z → host unit)
    : host unit :=
  match count with
  | O => mret tt
  | S count' => body i;; host_for_iter count' (Int.add i 1) body
  end.

Definition host_for (start stop : Z) (body : Z → host unit) : host unit :=
  host_for_iter (Z.to_nat (stop - start)) start body.

(** [(now - start) / (double) CLOCKS_PER_SEC] *)
Definition seconds (e : env) (start now : Z) : spec_float :=
  Time.div (Time.double_of_Z (now - start))
           (Time.double_of_Z (env_CLOCKS_PER_SEC e)).

(** ** [timeAddVectorsCPU] (lines 6-27) *)

Record vectors := Vectors {
  vec_A : list Z;
  vec_B : list Z;
  vec_C : list Z
}.

Definition declare_vectors (e : env) (n : Z) : vectors :=
  {| vec_A := uninitialised e "A" n;
     vec_B := uninitialised e "B" n;
     vec_C := uninitialised e "C" n |}.

(** Lines 13-15. *)
Definition cpu_construct (n i : Z) (v : vectors) : option vectors :=
  A ← array_set (vec_A v) i i;
  B ← array_set (vec_B v) i (Int.sub n i);
  C ← array_set (vec_C v) i 0;
  Some {| vec_A := A; vec_B := B; vec_C := C |}.

(** Line 21. *)
Definition cpu_add_element (j : Z) (v : vectors) : option vectors :=
  x ← array_get (vec_A v) j;
  y ← array_get (vec_B v) j;
  C ← array_set (vec_C v) j (Int.add x y);
  Some {| vec_A := vec_A v; vec_B := vec_B v; vec_C := C |}.

(** Lines 19-23. *)
Definition cpu_add_loops (n k : Z) (v : vectors) : option vectors :=
  for_loop 0 k (λ i, for_loop 0 n cpu_add_element) v.

(** The function, together with its local arrays when it returns. *)
Definition timeAddVectorsCPU_locals (e : env) (n k : Z)
    : host (spec_float * vectors) :=
  v ← local (for_loop 0 n (cpu_construct n) (declare_vectors e n));
  start ← clock e;
  v ← local (cpu_add_loops n k v);
  now ← clock e;
  let duration := seconds e start now in
  mret (duration, v).

Definition timeAddVectorsCPU (e : env) (n k : Z) : host spec_float :=
  fst <$> timeAddVectorsCPU_locals e n k.

(** ** [main] (lines 29-187) *)

Definition nl : string := String "010"%char EmptyString.

(** Lines 120-122. *)
Definition main_construct (n i : Z) (v : vectors) : option vectors :=
  A ← array_set (vec_A v) i i;
  B ← array_set (vec_B v) i (Int.sub (Int.sub n i) 1);
  C ← array_set (vec_C v) i 0;
  Some {| vec_A := A; vec_B := B; vec_C := C |}.

(** Lines 125-146: the buffers are written once and [looped_add] runs
    once. Returns [GPUtime1] and the array [C]. *)
Definition gpu_version1 (e : env) (n : Z) (looped_add : KernelFunctor)
    (constants : list Z) (v : vectors) : host (spec_float * list Z) :=
  start_time ← clock e;
  buffer_A ← create_buffer e "buffer_A" CL_MEM_READ_WRITE (sizeof_int * n);
  buffer_B ← create_buffer e "buffer_B" CL_MEM_READ_WRITE (sizeof_int * n);
  buffer_C ← create_buffer e "buffer_C" CL_MEM_READ_WRITE (sizeof_int * n);
  buffer_constants ←
    create_buffer e "buffer_constants" CL_MEM_READ_ONLY (sizeof_int * 2);
  enqueueWriteBuffer buffer_A CL_TRUE 0 (sizeof_int * n) Host_A (vec_A v);;
  enqueueWriteBuffer buffer_B CL_TRUE 0 (sizeof_int * n) Host_B (vec_B v);;
  enqueueWriteBuffer buffer_constants CL_TRUE 0 (sizeof_int * 2)
    Host_constants constants;;
  call looped_add
    {| arg_v1 := buffer_A; arg_v2 := buffer_B; arg_v3 := buffer_C;
       arg_constants := buffer_constants |};;
  C ← enqueueReadBuffer buffer_C CL_TRUE 0 (sizeof_int * n) Host_C (vec_C v);
  now ← clock e;
  mret (seconds e start_time now, C).

(** Lines 148-164: the arrays are copied over in every iteration, each
    followed by one run of [add]. Returns [GPUtime2] and the array [C]. *)
Definition gpu_version2 (e : env) (n k : Z) (add : KernelFunctor)
    (constants : list Z) (A B C : list Z) : host (spec_float * list Z) :=
  start_time ← clock e;
  buffer_A2 ← create_buffer e "buffer_A2" CL_MEM_READ_WRITE (sizeof_int * n);
  buffer_B2 ← create_buffer e "buffer_B2" CL_MEM_READ_WRITE (sizeof_int * n);
  buffer_C2 ← create_buffer e "buffer_C2" CL_MEM_READ_WRITE (sizeof_int * n);
  buffer_constants2 ←
    create_buffer e "buffer_constants2" CL_MEM_READ_ONLY (sizeof_int * 2);
  host_for 0 k (λ i,
    enqueueWriteBuffer buffer_A2 CL_TRUE 0 (sizeof_int * n) Host_A A;;
    enqueueWriteBuffer buffer_B2 CL_TRUE 0 (sizeof_int * n) Host_B B;;
    enqueueWriteBuffer buffer_constants2 CL_TRUE 0 (sizeof_int * 2)
      Host_constants constants;;
    call add
      {| arg_v1 := buffer_A2; arg_v2 := buffer_B2; arg_v3 := buffer_C2;
         arg_constants := buffer_constants2 |});;
  C ← enqueueReadBuffer buffer_C2 CL_TRUE 0 (sizeof_int * n) Host_C C;
  now ← clock e;
  mret (seconds e start_time now, C).

(** Lines 167-175 and 177-185, which differ in the header only. *)
Definition report (header : string) (CPUtime GPUtime : spec_float)
    : host unit :=
  let time_ratio := Time.div CPUtime GPUtime in
  print (Text header);; print Endl;;
  print (Text "CPU time: ");; print (Float CPUtime);; print Endl;;
  print (Text "GPU time: ");; print (Double GPUtime);; print Endl;;
  print (Text "GPU is ");;
  if Time.gt time_ratio Time.one
  then print (Double time_ratio);; print (Text " times faster!");;
       print Endl
  else print (Double time_ratio);; print (Text " times slower :(");;
       print Endl.

(** The local variables of [main] at line 165. [main_C1] is the array [C]
    after line 145 and [main_C] the array [C] after line 163. *)
Record main_locals := MainLocals {
  main_n : Z;
  main_k : Z;
  main_Nthreads : Z;
  main_constants : list Z;
  main_CPUtime : spec_float;
  main_A : list Z;
  main_B : list Z;
  main_C1 : list Z;
  main_GPUtime1 : spec_float;
  main_C : list Z;
  main_GPUtime2 : spec_float
}.

(** Lines 31-51: the platform and the device. *)
Definition select_device (e : env) : host device :=
  let all_platforms := env_platforms e in
  (if decide (length all_platforms = 0%nat)
   then print (Text (" No platforms found. Check OpenCL installation!"
                       ++ nl));;
        exit 1
   else mret tt);;
  default_platform ← vector_at all_platforms 0;
  let all_devices := platform_devices default_platform in
  (if decide (length all_devices = 0%nat)
   then print (Text (" No devices found. Check OpenCL installation!"
                       ++ nl));;
        exit 1
   else mret tt);;
  vector_at all_devices 1.

(** Lines 95-99: the kernels are built. *)
Definition build_program (e : env) (default_device : device) : host unit :=
  if decide (env_build_status e ≠ CL_SUCCESS)
  then print (Text "Error building: ");; print (Text (env_build_log e));;
       print Endl;;
       exit 1
  else mret tt.

(** Lines 105-164: the three measurements, on the variables [n], [k] and
    [Nthreads] of [main]. *)
Definition measure_with (e : env) (n k Nthreads : Z) : host main_locals :=
  let constants := [n; k] in
  CPUtime ← Time.float_of_double <$> timeAddVectorsCPU e n k;
  let looped_add := Functor Kernel_looped_add Nthreads in
  let add := Functor Kernel_add Nthreads in
  v ← local (for_loop 0 n (main_construct n) (declare_vectors e n));
  '(GPUtime1, C1) ← gpu_version1 e n looped_add constants v;
  '(GPUtime2, C) ← gpu_version2 e n k add constants (vec_A v) (vec_B v) C1;
  mret {| main_n := n; main_k := k; main_Nthreads := Nthreads;
          main_constants := constants; main_CPUtime := CPUtime;
          main_A := vec_A v; main_B := vec_B v;
          main_C1 := C1; main_GPUtime1 := GPUtime1;
          main_C := C; main_GPUtime2 := GPUtime2 |}.

(** Lines 101-104, then the measurements. *)
Definition measure (e : env) : host main_locals :=
  let n := 100000 in
  let k := 1000 in
  let Nthreads := 10 in
  measure_with e n k Nthreads.

Definition main (e : env) : host Z :=
  default_device ← select_device e;
  build_program e default_device;;
  l ← measure e;
  report "VERSION 1 -----------" (main_CPUtime l) (main_GPUtime1 l);;
  report (nl ++ "VERSION 2 -----------") (main_CPUtime l) (main_GPUtime2 l);;
  mret 0.

(** The exit code and the output of a run, when it has them. *)
Definition run (e : env) : option (Z * list chunk) :=
  match main e initial_state with
  | Done code s => Some (code, host_stdout s)
  | Exit code s => Some (code, host_stdout s)
  | Undefined => None
  end.

(** * Vocabulary of the properties *)

(** The values taken by the loop variable. *)
Fixpoint loop_indices (count : nat) (j : Z) : list Z :=
  match count with
  | O => []
  | Datatypes.S count' => j :: loop_indices count' (Int.add j 1)
  end.

(** The output buffer of a kernel is a buffer of its own. *)
Definition separate (a : kernel_args) : Prop :=
  arg_v3 a ≠ arg_v1 a ∧ arg_v3 a ≠ arg_v2 a ∧ arg_v3 a ≠ arg_constants a.

(** Element [j] of the output already holds the sum. *)
Definition settled (a : kernel_args) (m : memory) (j : Z) : Prop :=
  ∃ x y, load m (arg_v1 a) j = Some x ∧ load m (arg_v2 a) j = Some y ∧
         load m (arg_v3 a) j = Some (Int.add x y).

(** [set_where P f l] is [l] with the element at every index [i] such
    that [P i] replaced by [f i]. *)
Definition set_where (P : Z → bool) (f : Z → Z) (l : list Z) : list Z :=
  imap (λ i z, if P (Z.of_nat i) then f (Z.of_nat i) else z) l.

(** [l1[i] + l2[i]] *)
Definition sum_at (l1 l2 : list Z) (i : Z) : Z :=
  Int.add (l1 !!! Z.to_nat i) (l2 !!! Z.to_nat i).

(** [sums_where P l1 l2 l3] is [l3] with the element at every index [i]
    such that [P i] replaced by [l1[i] + l2[i]]. *)
Definition sums_where (P : Z → bool) (l1 l2 l3 : list Z) : list Z :=
  set_where P (sum_at l1 l2) l3.

(** Index [i] lies in the range of work-item [gid]. *)
Definition in_item (n gsize gid i : Z) : bool :=
  match item_range n (Int.wrap gsize) (Int.wrap gid) with
  | Some (start, stop) => bool_decide (start <= i < stop)
  | None => false
  end.

(** Index [i] lies in the range of one of the work-items of a schedule. *)
Definition covered (n gsize : Z) (schedule : list Z) (i : Z) : bool :=
  existsb (λ gid, in_item n gsize gid i) schedule.

(** The range of work-item [gid] is empty or lies in arrays of length
    [len]. *)
Definition fits (n gsize : Z) (len : nat) (gid : Z) : Prop :=
  match item_range n (Int.wrap gsize) (Int.wrap gid) with
  | Some (start, stop) => start < stop → 0 <= start ∧ stop <= Z.of_nat len
  | None => False
  end.

(** The indices that a work-item of [add] assigns, in its order. *)
Definition add_indices (n gsize gid : Z) : list Z :=
  match item_range n (Int.wrap gsize) (Int.wrap gid) with
  | Some (start, stop) => loop_indices (Z.to_nat (stop - start)) start
  | None => []
  end.

(** The same for [looped_add], which goes over them [k] times. *)
Definition looped_add_indices (n k gsize gid : Z) : list Z :=
  concat (replicate (Z.to_nat (k - 0)) (add_indices n gsize gid)).

(** [r] is made of the elements of the lists [ls], those of one list in
    the order of the list: one way for work-items to run side by side. *)
Inductive interleaved {A : Type} : list (list A) → list A → Prop :=
  | interleaved_done ls :
      Forall (λ l, l = []) ls → interleaved ls []
  | interleaved_step ls1 x l ls2 r :
      interleaved (ls1 ++ l :: ls2) r →
      interleaved (ls1 ++ (x :: l) :: ls2) (x :: r).

(** The shape shared by lines 13-15 and 120-122: [A[i] = i], [B[i]] set
    to a function of [i], [C[i] = 0]. *)
Definition construct (fB : Z → Z) (i : Z) (v : vectors) : option vectors :=
  A ← array_set (vec_A v) i i;
  B ← array_set (vec_B v) i (fB i);
  C ← array_set (vec_C v) i 0;
  Some {| vec_A := A; vec_B := B; vec_C := C |}.

(** A later state of the host: the same output, device memory [m],
    [handles] more buffers, the calls [cs] more, and [reads] more readings
    of the clock. *)
Definition advance (s : host_state) (m : memory) (handles : nat)
    (cs : list cl_call) (reads : nat) : host_state :=
  {| host_stdout := host_stdout s;
     host_device := m;
     host_next_handle := (handles + host_next_handle s)%nat;
     host_calls := host_calls s ++ cs;
     host_clock_reads := (reads + host_clock_reads s)%nat |}.

(** The calls of lines 131-145, with [h] the first free handle. *)
Definition version1_calls (n Nthreads : Z) (h : handle) : list cl_call :=
  [ CreateBuffer h CL_MEM_READ_WRITE (sizeof_int * n);
    CreateBuffer (1 + h) CL_MEM_READ_WRITE (sizeof_int * n);
    CreateBuffer (2 + h) CL_MEM_READ_WRITE (sizeof_int * n);
    CreateBuffer (3 + h) CL_MEM_READ_ONLY (sizeof_int * 2);
    EnqueueWriteBuffer h CL_TRUE 0 (sizeof_int * n) Host_A;
    EnqueueWriteBuffer (1 + h) CL_TRUE 0 (sizeof_int * n) Host_B;
    EnqueueWriteBuffer (3 + h) CL_TRUE 0 (sizeof_int * 2) Host_constants;
    EnqueueNDRangeKernel Kernel_looped_add Nthreads
      {| arg_v1 := h; arg_v2 := 1 + h; arg_v3 := 2 + h;
         arg_constants := 3 + h |};
    EnqueueReadBuffer (2 + h) CL_TRUE 0 (sizeof_int * n) Host_C ]%nat.

(** The calls of one iteration of the loop at lines 156-162. *)
Definition iteration_calls (n Nthreads : Z) (h : handle) : list cl_call :=
  [ EnqueueWriteBuffer h CL_TRUE 0 (sizeof_int * n) Host_A;
    EnqueueWriteBuffer (1 + h) CL_TRUE 0 (sizeof_int * n) Host_B;
    EnqueueWriteBuffer (3 + h) CL_TRUE 0 (sizeof_int * 2) Host_constants;
    EnqueueNDRangeKernel Kernel_add Nthreads
      {| arg_v1 := h; arg_v2 := 1 + h; arg_v3 := 2 + h;
         arg_constants := 3 + h |} ]%nat.

(** The calls of lines 152-163, with [h] the first free handle. *)
Definition version2_calls (n k Nthreads : Z) (h : handle) : list cl_call :=
  [ CreateBuffer h CL_MEM_READ_WRITE (sizeof_int * n);
    CreateBuffer (1 + h) CL_MEM_READ_WRITE (sizeof_int * n);
    CreateBuffer (2 + h) CL_MEM_READ_WRITE (sizeof_int * n);
    CreateBuffer (3 + h) CL_MEM_READ_ONLY (sizeof_int * 2) ]%nat
  ++ concat (replicate (Z.to_nat k) (iteration_calls n Nthreads h))
  ++ [ EnqueueReadBuffer (2 + h) CL_TRUE 0 (sizeof_int * n) Host_C ]%nat.

(** Device memory after the four buffers of a version are created at
    the handles from [h] on. *)
Definition created (e : env) (names : string * string * string * string)
    (n : Z) (h : handle) (m : memory) : memory :=
  let '(name_A, name_B, name_C, name_constants) := names in
  <[(3 + h)%nat := uninitialised e name_constants 2]>
    (<[(2 + h)%nat := uninitialised e name_C n]>
       (<[(1 + h)%nat := uninitialised e name_B n]>
          (<[h := uninitialised e name_A n]> m))).

(** Device memory after the arrays are written and the kernel has run. *)
Definition computed (constants A B : list Z) (h : handle) (m : memory)
    : memory :=
  <[(2 + h)%nat := zip_with Int.add A B]>
    (<[(3 + h)%nat := constants]>
       (<[(1 + h)%nat := B]> (<[h := A]> m))).

(** The body of the loop at lines 156-162, with the buffers at the
    handles from [h] on. *)
Definition version2_iteration (n : Z) (add : KernelFunctor)
    (constants A B : list Z) (h : handle) : host unit :=
  enqueueWriteBuffer h CL_TRUE 0 (sizeof_int * n) Host_A A;;
  enqueueWriteBuffer (1 + h)%nat CL_TRUE 0 (sizeof_int * n) Host_B B;;
  enqueueWriteBuffer (3 + h)%nat CL_TRUE 0 (sizeof_int * 2)
    Host_constants constants;;
  call add
    {| arg_v1 := h; arg_v2 := (1 + h)%nat; arg_v3 := (2 + h)%nat;
       arg_constants := (3 + h)%nat |}.

(** The vector [B] as [timeAddVectorsCPU] and as [main] construct it. *)
Definition cpu_B (n : Z) : list Z := (λ i, Int.sub n i) <$> seqZ 0 n.
Definition gpu_B (n : Z) : list Z :=
  (λ i, Int.sub (Int.sub n i) 1) <$> seqZ 0 n.

(** The local variables of [main] at line 165, when the clock has been
    read [reads] times before line 108. *)
Definition measured (e : env) (n k Nthreads : Z) (reads : nat)
    : main_locals :=
  let t i := env_clock e (i + reads)%nat in
  {| main_n := n; main_k := k; main_Nthreads := Nthreads;
     main_constants := [n; k];
     main_CPUtime := Time.float_of_double (seconds e (t 0%nat) (t 1%nat));
     main_A := seqZ 0 n; main_B := gpu_B n;
     main_C1 := zip_with Int.add (seqZ 0 n) (gpu_B n);
     main_GPUtime1 := seconds e (t 2%nat) (t 3%nat);
     main_C := zip_with Int.add (seqZ 0 n) (gpu_B n);
     main_GPUtime2 := seconds e (t 4%nat) (t 5%nat) |}.

(** Device memory at line 165, with [h] the first handle. *)
Definition measured_memory (e : env) (n k : Z) (h : handle) (m : memory)
    : memory :=
  computed [n; k] (seqZ 0 n) (gpu_B n) (4 + h)%nat
    (created e ("buffer_A2", "buffer_B2", "buffer_C2", "buffer_constants2")
       n (4 + h)%nat
       (computed [n; k] (seqZ 0 n) (gpu_B n) h
          (created e ("buffer_A", "buffer_B", "buffer_C", "buffer_constants")
             n h m))).

(** The calls of lines 131-163. *)
Definition measured_calls (n k Nthreads : Z) (h : handle) : list cl_call :=
  version1_calls n Nthreads h ++ version2_calls n k Nthreads (4 + h)%nat.

(** A later state of the host that differs by its output only. *)
Definition printed (s : host_state) (out : list chunk) : host_state :=
  {| host_stdout := host_stdout s ++ out;
     host_device := host_device s;
     host_next_handle := host_next_handle s;
     host_calls := host_calls s;
     host_clock_reads := host_clock_reads s |}.

(** The end of the last line of a report. *)
Definition verdict (time_ratio : spec_float) : string :=
  if Time.gt time_ratio Time.one
  then " times faster!" else " times slower :(".

(** What one report sends to [std::cout]. *)
Definition version_report (header : string) (CPUtime GPUtime : spec_float)
    : list chunk :=
  [ Text header; Endl;
    Text "CPU time: "; Float CPUtime; Endl;
    Text "GPU time: "; Double GPUtime; Endl;
    Text "GPU is "; Double (Time.div CPUtime GPUtime);
    Text (verdict (Time.div CPUtime GPUtime)); Endl ].

(** An installation with a CPU and a GPU on its first platform, on which
    the kernels build. *)
Definition sample_env : env :=
  {| env_platforms := [ {| platform_devices := [0; 1]%nat |} ];
     env_build_status := CL_SUCCESS;
     env_build_log := "";
     env_clock := λ i, Z.of_nat i * 1000;
     env_CLOCKS_PER_SEC := 1000000;
     env_indeterminate := λ _ _, 0 |}.

(** An installation whose first platform has a single device. *)
Definition one_device_env : env :=
  {| env_platforms := [ {| platform_devices := [0]%nat |} ];
     env_build_status := CL_SUCCESS;
     env_build_log := "";
     env_clock := λ i, Z.of_nat i * 1000;
     env_CLOCKS_PER_SEC := 1000000;
     env_indeterminate := λ _ _, 0 |}.

(** The blocking flag passed with a call, when the call takes one. *)
Definition blocking_flag (c : cl_call) : option bool :=
  match c with
  | EnqueueWriteBuffer _ blocking _ _ _ => Some blocking
  | EnqueueReadBuffer _ blocking _ _ _ => Some blocking
  | CreateBuffer _ _ _ => None
  | EnqueueNDRangeKernel _ _ _ => None
  end.

(** The calls on the command queue. *)
Definition queue_operation (c : cl_call) : bool :=
  match c with
  | CreateBuffer _ _ _ => false
  | _ => true
  end.

Definition is_create (c : cl_call) : bool :=
  match c with
  | CreateBuffer _ _ _ => true
  | _ => false
  end.

Definition is_launch (kern : kernel_name) (c : cl_call) : bool :=
  match c, kern with
  | EnqueueNDRangeKernel Kernel_add _ _, Kernel_add => true
  | EnqueueNDRangeKernel Kernel_looped_add _ _, Kernel_looped_add => true
  | _, _ => false
  end.

Definition is_write (c : cl_call) : bool :=
  match c with
  | EnqueueWriteBuffer _ _ _ _ _ => true
  | _ => false
  end.

(** A transfer carries the flag [CL_TRUE]; the other calls carry no
    blocking flag. *)
Definition blocking_where_flagged (c : cl_call) : Prop :=
  match c with
  | EnqueueWriteBuffer _ blocking _ _ _ => blocking = CL_TRUE
  | EnqueueReadBuffer _ blocking _ _ _ => blocking = CL_TRUE
  | CreateBuffer _ _ _ => blocking_flag c = None
  | EnqueueNDRangeKernel _ _ _ => blocking_flag c = None
  end.

(** How many of the calls satisfy [p]. *)
Definition count_calls (p : cl_call → bool) (cs : list cl_call) : nat :=
  length (filter (λ c, p c = true) cs).

(** What a complete run sends to [std::cout], with the clock read
    [reads] times before. *)
Definition reports (e : env) (reads : nat) : list chunk :=
  let l := measured e 100000 1000 10 reads in
  version_report "VERSION 1 -----------" (main_CPUtime l) (main_GPUtime1 l)
  ++ version_report (nl ++ "VERSION 2 -----------")
       (main_CPUtime l) (main_GPUtime2 l).

(** ** Vocabulary of the further properties *)

(** [m'] differs from [m] at most in the contents of the output buffer,
    which keeps its length. *)
Definition only_output (a : kernel_args) (m m' : memory) : Prop :=
  (∀ p, p ≠ arg_v3 a → m' !! p = m !! p) ∧
  length <$> m' !! arg_v3 a = length <$> m !! arg_v3 a.

(** Four buffers of a device, for vectors of [len] elements: the inputs
    [1, 2, ...] and [10, 20, ...], an output of zeros, and the constants. *)
Definition sample_args : kernel_args :=
  {| arg_v1 := 0; arg_v2 := 1; arg_v3 := 2; arg_constants := 3 |}%nat.

Definition sample_memory (len : Z) (constants : list Z) : memory :=
  <[0%nat := (λ i, i + 1) <$> seqZ 0 len]>
    (<[1%nat := (λ i, 10 * (i + 1)) <$> seqZ 0 len]>
       (<[2%nat := (λ _, 0) <$> seqZ 0 len]>
          (<[3%nat := constants]> ∅))).

(** [sample_env] with other contents in what is not initialised. *)
Definition other_garbage_env : env :=
  {| env_platforms := env_platforms sample_env;
     env_build_status := env_build_status sample_env;
     env_build_log := env_build_log sample_env;
     env_clock := env_clock sample_env;
     env_CLOCKS_PER_SEC := env_CLOCKS_PER_SEC sample_env;
     env_indeterminate := λ _ i, 7 + i |}.


(** How many elements a launch with [Nthreads] work-items assigns, for
    vectors of [n] elements: [n / Nthreads] for each work-item. *)
Definition assigned (n Nthreads : Z) : nat :=
  Z.to_nat (n / Nthreads * Nthreads).

(** The output buffer after such a launch: the sums in the elements that
    are assigned, and what it held in the others. *)
Definition launch_output (n Nthreads : Z) (l1 l2 l3 : list Z) : list Z :=
  zip_with Int.add (take (assigned n Nthreads) l1)
                   (take (assigned n Nthreads) l2)
  ++ drop (assigned n Nthreads) l3.

(** The constants are [cs] and buffer [p] has [len] elements. *)
Definition buffer_of_length (a : kernel_args) (cs : list Z) (p : handle)
    (len : nat) (m : memory) : Prop :=
  m !! arg_constants a = Some cs ∧ length <$> m !! p = Some len.

(** The three messages that come with exit code [1]. *)
Definition no_platform_message : list chunk :=
  [Text (" No platforms found. Check OpenCL installation!" ++ nl)].
Definition no_device_message : list chunk :=
  [Text (" No devices found. Check OpenCL installation!" ++ nl)].
Definition build_failure_message (e : env) : list chunk :=
  [Text "Error building: "; Text (env_build_log e); Endl].

(** The first platform has [count] devices. *)
Definition first_platform_devices (e : env) (count : nat) : Prop :=
  ∃ p ps, env_platforms e = p :: ps ∧ length (platform_devices p) = count.


(** * Properties *)

(** ** [int] arithmetic without overflow *)

Ltac int_lia :=
  unfold Int.in_range, Int.min_int, Int.max_int in *; lia.

Section int_facts.

Lemma wrap_id z : Int.in_range z → Int.wrap z = z.
Proof.
  unfold Int.in_range, Int.min_int, Int.max_int, Int.wrap. intros Hz.
  rewrite Z.mod_small; lia.
Qed.

Lemma wrap_in_range z : Int.in_range (Int.wrap z).
Proof.
  unfold Int.in_range, Int.min_int, Int.max_int, Int.wrap.
  pose proof (Z.mod_pos_bound (z + 2 ^ 31) (2 ^ 32) eq_refl). lia.
Qed.

Lemma add_id a b : Int.in_range (a + b) → Int.add a b = a + b.
Proof. apply wrap_id. Qed.

Lemma sub_id a b : Int.in_range (a - b) → Int.sub a b = a - b.
Proof. apply wrap_id. Qed.

Lemma mul_id a b : Int.in_range (a * b) → Int.mul a b = a * b.
Proof. apply wrap_id. Qed.

(** With a positive divisor and a dividend that is not negative, [/] is
    the division of [Z]. *)
Lemma div_id n d :
  0 <= n → Int.in_range n → 0 < d → Int.div n d = Some (n / d).
Proof.
  intros Hn Hr Hd. unfold Int.div.
  rewrite decide_False by lia.
  rewrite Z.quot_div_nonneg by lia. f_equal. apply wrap_id.
  pose proof (Z.div_pos n d Hn Hd).
  pose proof (Z.div_le_upper_bound n d n Hd).
  unfold Int.in_range, Int.min_int in *. nia.
Qed.

End int_facts.

(** ** Loops *)

Section loops.
Context {S : Type}.
Implicit Types (body : Z → S → option S) (s : S).

Lemma each_app body js1 js2 s :
  each body (js1 ++ js2) s = s' ← each body js1 s; each body js2 s'.
Proof.
  revert s. induction js1 as [|j js1 IH]; intros s; simpl; [done|].
  destruct (body j s) as [s1|]; simpl; [apply IH|done].
Qed.

Lemma for_iter_each count j body s :
  for_iter count j body s = each body (loop_indices count j) s.
Proof.
  revert j s. induction count as [|count IH]; intros j s; simpl; [done|].
  destruct (body j s) as [s1|]; simpl; [apply IH|done].
Qed.

Lemma loop_indices_seqZ count j :
  Int.min_int <= j → j + Z.of_nat count <= Int.max_int →
  loop_indices count j = seqZ j (Z.of_nat count).
Proof.
  revert j. induction count as [|count IH]; intros j Hlo Hhi.
  - by rewrite seqZ_nil.
  - rewrite seqZ_cons by lia. simpl. f_equal.
    rewrite add_id by int_lia.
    rewrite IH by int_lia. f_equal; lia.
Qed.

(** A loop whose bounds are values of [int] visits [start], ...,
    [stop - 1], each once and in this order. *)
Lemma for_loop_each start stop body s :
  Int.in_range start → Int.in_range stop →
  for_loop start stop body s = each body (seqZ start (stop - start)) s.
Proof.
  intros [Hlo _] [_ Hhi]. unfold for_loop. rewrite for_iter_each.
  destruct (decide (start <= stop)) as [Hle|Hgt].
  - rewrite loop_indices_seqZ by int_lia. by rewrite Z2Nat.id by lia.
  - replace (Z.to_nat (stop - start)) with 0%nat by lia.
    by rewrite seqZ_nil by lia.
Qed.

Lemma for_iter_ext count j body1 body2 s :
  (∀ i s', body1 i s' = body2 i s') →
  for_iter count j body1 s = for_iter count j body2 s.
Proof.
  intros Hb. revert j s. induction count as [|count IH]; intros j s; [done|].
  simpl. rewrite Hb. destruct (body2 j s) as [s1|]; simpl; [apply IH|done].
Qed.

(** A loop that runs the same pass over a list in each iteration runs
    over the list that many times. *)
Lemma for_iter_repeat count j body js s :
  for_iter count j (λ _, each body js) s =
  each body (concat (replicate count js)) s.
Proof.
  revert j s. induction count as [|count IH]; intros j s; [done|].
  simpl. rewrite each_app.
  destruct (each body js s) as [s1|]; simpl; [apply IH|done].
Qed.

(** A pass that leaves its own result unchanged can run any number of
    times more. *)
Lemma for_loop_idempotent k (pass : S → option S) s :
  1 <= k →
  (∀ s', pass s = Some s' → pass s' = Some s') →
  for_loop 0 k (λ _, pass) s = pass s.
Proof.
  intros Hk Hidem. unfold for_loop.
  destruct (Z.to_nat (k - 0)) as [|count] eqn:Hc; [lia|]. simpl.
  destruct (pass s) as [s1|] eqn:Hs; simpl; [|done].
  specialize (Hidem s1 eq_refl). clear Hc Hs.
  generalize (Int.add 0 1). induction count as [|count IH]; intros j; [done|].
  simpl. rewrite Hidem. simpl. apply IH.
Qed.

End loops.

(** ** Access to device memory *)

Section memory_facts.
Implicit Types (m : memory) (p : handle).

Lemma load_lookup m p l i :
  m !! p = Some l → 0 <= i → load m p i = l !! Z.to_nat i.
Proof.
  intros Hp Hi. unfold load, array_get. rewrite Hp. simpl.
  by rewrite decide_True.
Qed.

Lemma store_lookup m p l i x :
  m !! p = Some l → 0 <= i < Z.of_nat (length l) →
  store p i x m = Some (<[p := <[Z.to_nat i := x]> l]> m).
Proof.
  intros Hp Hi. unfold store, array_set. rewrite Hp. simpl.
  by rewrite decide_True.
Qed.

End memory_facts.

(** ** One element of the sum *)

Section add_element_facts.
Context (a : kernel_args) (Hsep : separate a).

Lemma add_element_inv j (m m' : memory) :
  add_element a j m = Some m' →
  ∃ x y l3,
    load m (arg_v1 a) j = Some x ∧ load m (arg_v2 a) j = Some y ∧
    m !! arg_v3 a = Some l3 ∧ 0 <= j < Z.of_nat (length l3) ∧
    m' = <[arg_v3 a := <[Z.to_nat j := Int.add x y]> l3]> m.
Proof.
  unfold add_element, store, array_set. intros H.
  destruct (load m (arg_v1 a) j) as [x|]; simpl in H; [|done].
  destruct (load m (arg_v2 a) j) as [y|]; simpl in H; [|done].
  destruct (m !! arg_v3 a) as [l3|]; simpl in H; [|done].
  destruct (decide _) as [Hj|]; simpl in H; [|done].
  injection H as <-. by exists x, y, l3.
Qed.

Lemma add_element_frame j (m m' : memory) p :
  add_element a j m = Some m' → p ≠ arg_v3 a → m' !! p = m !! p.
Proof.
  intros (x & y & l3 & _ & _ & _ & _ & ->)%add_element_inv Hp.
  by rewrite lookup_insert_ne.
Qed.

Lemma add_element_load j (m m' : memory) p i :
  add_element a j m = Some m' → p ≠ arg_v3 a → load m' p i = load m p i.
Proof.
  intros H Hp. unfold load. by rewrite (add_element_frame j m m' p).
Qed.

Lemma add_element_settles j (m m' : memory) :
  add_element a j m = Some m' → settled a m' j.
Proof.
  destruct Hsep as (H1 & H2 & _). intros H.
  pose proof (add_element_load j m m' _ j H (not_eq_sym H1)) as Hx.
  pose proof (add_element_load j m m' _ j H (not_eq_sym H2)) as Hy.
  destruct (add_element_inv _ _ _ H) as (x & y & l3 & Ex & Ey & _ & Hj & ->).
  exists x, y. rewrite Hx, Hy. split_and!; [done..|].
  unfold load, array_get. rewrite lookup_insert_eq. simpl.
  rewrite decide_True by lia. apply list_lookup_insert_eq. lia.
Qed.

Lemma add_element_keeps j i (m m' : memory) :
  add_element a j m = Some m' → settled a m i → settled a m' i.
Proof.
  destruct Hsep as (H1 & H2 & _). intros H (x & y & Ex & Ey & Ez).
  pose proof (add_element_load j m m' _ i H (not_eq_sym H1)) as Hx.
  pose proof (add_element_load j m m' _ i H (not_eq_sym H2)) as Hy.
  exists x, y. rewrite Hx, Hy. split_and!; [done..|].
  destruct (add_element_inv _ _ _ H)
    as (x' & y' & l3 & Ex' & Ey' & E3 & Hj & ->).
  destruct (decide (i = j)) as [->|Hne].
  - replace x' with x by congruence. replace y' with y by congruence.
    unfold load, array_get. rewrite lookup_insert_eq. simpl.
    rewrite decide_True by lia. apply list_lookup_insert_eq. lia.
  - unfold load, array_get in *. rewrite lookup_insert_eq. simpl.
    rewrite E3 in Ez. simpl in Ez.
    destruct (decide (0 <= i)) as [Hi|]; [|done].
    rewrite list_lookup_insert_ne by lia. done.
Qed.

Lemma add_element_settled j (m : memory) :
  settled a m j → add_element a j m = Some m.
Proof.
  intros (x & y & Ex & Ey & Ez). unfold add_element.
  rewrite Ex, Ey. simpl. unfold store, load, array_get, array_set in *.
  destruct (m !! arg_v3 a) as [l3|] eqn:E3; simpl in *; [|done].
  destruct (decide (0 <= j)) as [Hj|]; [|done].
  apply lookup_lt_Some in Ez as Hlt.
  rewrite decide_True by lia. simpl.
  rewrite list_insert_id by done. by rewrite insert_id.
Qed.

(** A pass over any elements is unchanged by a second pass. *)
Lemma pass_frame js (m m' : memory) p :
  each (add_element a) js m = Some m' → p ≠ arg_v3 a → m' !! p = m !! p.
Proof.
  revert m. induction js as [|j js IH]; intros m H Hp; simpl in H.
  - by injection H as <-.
  - destruct (add_element a j m) as [m1|] eqn:E; simpl in H; [|done].
    rewrite (IH m1) by done. by apply (add_element_frame j m m1).
Qed.

Lemma pass_keeps js i (m m' : memory) :
  each (add_element a) js m = Some m' → settled a m i → settled a m' i.
Proof.
  revert m. induction js as [|j js IH]; intros m H Hi; simpl in H.
  - by injection H as <-.
  - destruct (add_element a j m) as [m1|] eqn:E; simpl in H; [|done].
    apply (IH m1); [done|]. by apply (add_element_keeps j i m m1).
Qed.

Lemma pass_settles js (m m' : memory) :
  each (add_element a) js m = Some m' → Forall (settled a m') js.
Proof.
  revert m. induction js as [|j js IH]; intros m H; simpl in H; [done|].
  destruct (add_element a j m) as [m1|] eqn:E; simpl in H; [|done].
  constructor; [|by apply (IH m1)].
  apply (pass_keeps js j m1); [done|]. by apply (add_element_settles j m m1).
Qed.

Lemma pass_settled js (m : memory) :
  Forall (settled a m) js → each (add_element a) js m = Some m.
Proof.
  induction 1 as [|j js Hj _ IH]; simpl; [done|].
  by rewrite add_element_settled.
Qed.

Lemma pass_idempotent js (m m' : memory) :
  each (add_element a) js m = Some m' →
  each (add_element a) js m' = Some m'.
Proof. intros H. by apply pass_settled, (pass_settles js m). Qed.

End add_element_facts.

(** ** Arrays partly overwritten *)

Section set_where_facts.
Implicit Types (P Q : Z → bool) (f g : Z → Z) (l : list Z).

Lemma length_set_where P f l : length (set_where P f l) = length l.
Proof. apply length_imap. Qed.

Lemma lookup_set_where P f l (i : nat) :
  set_where P f l !! i =
  (λ z, if P (Z.of_nat i) then f (Z.of_nat i) else z) <$> l !! i.
Proof. apply list_lookup_imap. Qed.

Lemma set_where_ext P Q f g l :
  (∀ i, 0 <= i < Z.of_nat (length l) → P i = Q i) →
  (∀ i, 0 <= i < Z.of_nat (length l) → Q i = true → f i = g i) →
  set_where P f l = set_where Q g l.
Proof.
  intros HPQ Hfg. apply list_eq. intros i. rewrite !lookup_set_where.
  destruct (l !! i) as [z|] eqn:E; simpl; [|done].
  apply lookup_lt_Some in E. rewrite HPQ by lia.
  destruct (Q (Z.of_nat i)) eqn:EQ; [|done]. by rewrite Hfg by (done || lia).
Qed.

Lemma set_where_nowhere f l : set_where (λ _, false) f l = l.
Proof.
  apply list_eq. intros i. rewrite lookup_set_where. by destruct (l !! i).
Qed.

Lemma set_where_everywhere P f l :
  (∀ i, 0 <= i < Z.of_nat (length l) → P i = true) →
  set_where P f l = f <$> seqZ 0 (Z.of_nat (length l)).
Proof.
  intros HP. apply list_eq. intros i.
  rewrite lookup_set_where, list_lookup_fmap.
  destruct (l !! i) as [z|] eqn:E; simpl.
  - apply lookup_lt_Some in E as Hi. rewrite HP by lia.
    by rewrite lookup_seqZ_lt by lia.
  - apply lookup_ge_None in E. by rewrite lookup_seqZ_ge by lia.
Qed.

Lemma set_where_insert P f l j :
  0 <= j < Z.of_nat (length l) →
  <[Z.to_nat j := f j]> (set_where P f l) =
  set_where (λ i, P i || bool_decide (i = j)) f l.
Proof.
  intros Hj. apply list_eq. intros i. rewrite lookup_set_where.
  destruct (decide (i = Z.to_nat j)) as [->|Hne].
  - rewrite list_lookup_insert_eq by (rewrite length_set_where; lia).
    destruct (lookup_lt_is_Some_2 l (Z.to_nat j)) as [z Ez]; [lia|].
    rewrite Ez. simpl. rewrite Z2Nat.id by lia.
    rewrite bool_decide_eq_true_2 by done. by rewrite orb_true_r.
  - rewrite list_lookup_insert_ne by done. rewrite lookup_set_where.
    rewrite bool_decide_eq_false_2 by lia. by rewrite orb_false_r.
Qed.

(** [a[j] = f j] on an array partly overwritten with [f]. *)
Lemma array_set_set_where P f l j :
  0 <= j < Z.of_nat (length l) →
  array_set (set_where P f l) j (f j) =
  Some (set_where (λ i, P i || bool_decide (i = j)) f l).
Proof.
  intros Hj. unfold array_set. rewrite length_set_where.
  rewrite decide_True by done. by rewrite set_where_insert.
Qed.

Lemma length_sums_where P (l1 l2 l3 : list Z) :
  length (sums_where P l1 l2 l3) = length l3.
Proof. apply length_set_where. Qed.

Lemma sums_where_ext P Q (l1 l2 l3 : list Z) :
  (∀ i, 0 <= i < Z.of_nat (length l3) → P i = Q i) →
  sums_where P l1 l2 l3 = sums_where Q l1 l2 l3.
Proof. intros HPQ. by apply set_where_ext. Qed.

Lemma sums_where_nowhere (l1 l2 l3 : list Z) :
  sums_where (λ _, false) l1 l2 l3 = l3.
Proof. apply set_where_nowhere. Qed.

Lemma sums_where_everywhere P (l1 l2 l3 : list Z) :
  length l1 = length l3 → length l2 = length l3 →
  (∀ i, 0 <= i < Z.of_nat (length l3) → P i = true) →
  sums_where P l1 l2 l3 = zip_with Int.add l1 l2.
Proof.
  intros H1 H2 HP. unfold sums_where. rewrite set_where_everywhere by done.
  apply list_eq. intros i. rewrite list_lookup_fmap, lookup_zip_with.
  destruct (decide (i < length l3)%nat) as [Hi|Hi].
  - rewrite lookup_seqZ_lt by lia. simpl. unfold sum_at.
    replace (Z.to_nat (0 + Z.of_nat i)) with i by lia.
    destruct (lookup_lt_is_Some_2 l1 i) as [x Ex]; [lia|].
    destruct (lookup_lt_is_Some_2 l2 i) as [y Ey]; [lia|].
    rewrite (list_lookup_total_correct _ _ _ Ex).
    rewrite (list_lookup_total_correct _ _ _ Ey).
    by rewrite Ex, Ey.
  - rewrite lookup_seqZ_ge by lia.
    by rewrite (lookup_ge_None_2 l1) by lia.
Qed.

Lemma sums_where_insert P (l1 l2 l3 : list Z) j x y :
  0 <= j < Z.of_nat (length l3) →
  l1 !! Z.to_nat j = Some x → l2 !! Z.to_nat j = Some y →
  <[Z.to_nat j := Int.add x y]> (sums_where P l1 l2 l3) =
  sums_where (λ i, P i || bool_decide (i = j)) l1 l2 l3.
Proof.
  intros Hj Ex Ey. unfold sums_where.
  rewrite <- set_where_insert by done. unfold sum_at.
  rewrite (list_lookup_total_correct _ _ _ Ex).
  by rewrite (list_lookup_total_correct _ _ _ Ey).
Qed.

End set_where_facts.

(** ** The kernels *)

Section kernel_facts.
Context (a : kernel_args) (Hsep : separate a).

Lemma item_range_in_range n Nthreads ID start stop :
  item_range n Nthreads ID = Some (start, stop) →
  Int.in_range start ∧ Int.in_range stop.
Proof.
  unfold item_range. destruct (Int.div n Nthreads) as [ratio|]; [|done].
  simpl. intros [= <- <-]. split; apply wrap_in_range.
Qed.

Lemma inner_loop_idempotent start stop (m m' : memory) :
  for_loop start stop (add_element a) m = Some m' →
  for_loop start stop (add_element a) m' = Some m'.
Proof. unfold for_loop. rewrite !for_iter_each. by apply pass_idempotent. Qed.

Lemma inner_loop_frame start stop (m m' : memory) p :
  for_loop start stop (add_element a) m = Some m' →
  p ≠ arg_v3 a → m' !! p = m !! p.
Proof. unfold for_loop. rewrite for_iter_each. by apply pass_frame. Qed.

(** With at least one iteration, a work-item of [looped_add] does what
    the work-item of [add] does. *)
Lemma looped_add_item gid gsize (m : memory) k :
  load m (arg_constants a) 1 = Some k → 1 <= k →
  looped_add gid gsize a m = add gid gsize a m.
Proof.
  intros Hk Hk1. unfold looped_add, add.
  destruct (load m (arg_constants a) 0) as [n|]; simpl; [|done].
  rewrite Hk. simpl.
  destruct (item_range _ _ _) as [[start stop]|]; simpl; [|done].
  apply for_loop_idempotent; [done|].
  intros m'. apply inner_loop_idempotent.
Qed.

Lemma add_frame gid gsize (m m' : memory) p :
  add gid gsize a m = Some m' → p ≠ arg_v3 a → m' !! p = m !! p.
Proof.
  unfold add.
  destruct (load m (arg_constants a) 0) as [n|]; simpl; [|done].
  destruct (item_range _ _ _) as [[start stop]|]; simpl; [|done].
  apply inner_loop_frame.
Qed.

Lemma looped_add_launch schedule gsize (m : memory) k :
  load m (arg_constants a) 1 = Some k → 1 <= k →
  run_items looped_add schedule gsize a m = run_items add schedule gsize a m.
Proof.
  intros Hk Hk1. unfold run_items. revert m Hk.
  induction schedule as [|gid schedule IH]; intros m Hk; simpl; [done|].
  rewrite (looped_add_item gid gsize m k) by done.
  destruct (add gid gsize a m) as [m1|] eqn:E; simpl; [|done].
  apply IH. unfold load in *.
  rewrite (add_frame gid gsize m m1); [done..|].
  destruct Hsep as (_ & _ & H3). congruence.
Qed.

(** *** What a launch of [add] leaves in the output buffer *)

Context (m : memory) (l1 l2 : list Z).
Context (Hv1 : m !! arg_v1 a = Some l1) (Hv2 : m !! arg_v2 a = Some l2).

Lemma add_element_sums P (l3 : list Z) j :
  0 <= j < Z.of_nat (length l3) →
  j < Z.of_nat (length l1) → j < Z.of_nat (length l2) →
  add_element a j (<[arg_v3 a := sums_where P l1 l2 l3]> m) =
  Some (<[arg_v3 a := sums_where (λ i, P i || bool_decide (i = j)) l1 l2 l3]>
          m).
Proof.
  intros Hj Hj1 Hj2. destruct Hsep as (H1 & H2 & _).
  destruct (lookup_lt_is_Some_2 l1 (Z.to_nat j)) as [x Ex]; [lia|].
  destruct (lookup_lt_is_Some_2 l2 (Z.to_nat j)) as [y Ey]; [lia|].
  unfold add_element.
  rewrite (load_lookup _ (arg_v1 a) l1) by first [by rewrite lookup_insert_ne | lia].
  rewrite Ex. simpl.
  rewrite (load_lookup _ (arg_v2 a) l2) by first [by rewrite lookup_insert_ne | lia].
  rewrite Ey. simpl.
  rewrite (store_lookup _ _ (sums_where P l1 l2 l3))
    by first [by rewrite lookup_insert_eq | rewrite length_sums_where; lia].
  rewrite insert_insert_eq. by rewrite (sums_where_insert P l1 l2 l3 j x y).
Qed.

(** The assignments of a list of indices, in any order and with any
    repetition. *)
Lemma each_add_element_sums P (l3 : list Z) js :
  Forall (λ j, 0 <= j < Z.of_nat (length l3) ∧ j < Z.of_nat (length l1) ∧
               j < Z.of_nat (length l2)) js →
  each (add_element a) js (<[arg_v3 a := sums_where P l1 l2 l3]> m) =
  Some (<[arg_v3 a := sums_where (λ i, P i || bool_decide (i ∈ js)) l1 l2 l3]>
          m).
Proof.
  intros Hjs. revert P.
  induction Hjs as [|j js (H3 & H1 & H2) _ IH]; intros P; simpl.
  - do 2 f_equal. apply sums_where_ext. intros i _.
    by rewrite orb_false_r.
  - rewrite add_element_sums by done. simpl. rewrite IH. do 2 f_equal.
    apply sums_where_ext. intros i _. rewrite <- orb_assoc. f_equal.
    apply eq_true_iff_eq.
    rewrite orb_true_iff, !bool_decide_eq_true, elem_of_cons. tauto.
Qed.

Lemma pass_sums P (l3 : list Z) start (count : nat) :
  0 <= start →
  start + Z.of_nat count <= Z.of_nat (length l1) →
  start + Z.of_nat count <= Z.of_nat (length l2) →
  start + Z.of_nat count <= Z.of_nat (length l3) →
  each (add_element a) (seqZ start (Z.of_nat count))
    (<[arg_v3 a := sums_where P l1 l2 l3]> m) =
  Some (<[arg_v3 a :=
            sums_where
              (λ i, P i || bool_decide (start <= i < start + Z.of_nat count))
              l1 l2 l3]> m).
Proof.
  revert start P. induction count as [|count IH]; intros start P H0 H1 H2 H3.
  - rewrite seqZ_nil by lia. simpl. do 2 f_equal.
    apply sums_where_ext. intros i _.
    rewrite bool_decide_eq_false_2 by lia. by rewrite orb_false_r.
  - rewrite seqZ_cons by lia. simpl.
    rewrite add_element_sums by lia. simpl.
    replace (Z.pred (Z.of_nat (S count))) with (Z.of_nat count) by lia.
    rewrite IH by lia. do 2 f_equal.
    apply sums_where_ext. intros i _. rewrite <- orb_assoc. f_equal.
    apply eq_true_iff_eq. rewrite orb_true_iff, !bool_decide_eq_true. lia.
Qed.

Lemma add_sums P (l3 cs : list Z) n gid gsize :
  m !! arg_constants a = Some cs → cs !! 0%nat = Some n →
  fits n gsize (length l1) gid → fits n gsize (length l2) gid →
  fits n gsize (length l3) gid →
  add gid gsize a (<[arg_v3 a := sums_where P l1 l2 l3]> m) =
  Some (<[arg_v3 a := sums_where (λ i, P i || in_item n gsize gid i) l1 l2 l3]>
          m).
Proof.
  intros Hc Hn. unfold fits, in_item, add.
  destruct Hsep as (_ & _ & H3).
  rewrite (load_lookup _ _ cs) by first [by rewrite lookup_insert_ne | lia].
  change (Z.to_nat 0) with 0%nat. rewrite Hn. simpl.
  destruct (item_range _ _ _) as [[start stop]|] eqn:E; [|done]. simpl.
  intros F1 F2 F3. apply item_range_in_range in E as [Hr1 Hr2].
  rewrite for_loop_each by done.
  destruct (decide (start < stop)) as [Hlt|Hge].
  - replace (stop - start) with (Z.of_nat (Z.to_nat (stop - start))) by lia.
    rewrite pass_sums by lia. do 2 f_equal.
    apply sums_where_ext. intros i _. f_equal.
    apply eq_true_iff_eq. rewrite !bool_decide_eq_true. lia.
  - rewrite seqZ_nil by lia. simpl. do 2 f_equal.
    apply sums_where_ext. intros i _.
    rewrite bool_decide_eq_false_2 by lia. by rewrite orb_false_r.
Qed.

Lemma run_items_add_sums P (l3 cs : list Z) n schedule gsize :
  m !! arg_constants a = Some cs → cs !! 0%nat = Some n →
  Forall (fits n gsize (length l1)) schedule →
  Forall (fits n gsize (length l2)) schedule →
  Forall (fits n gsize (length l3)) schedule →
  run_items add schedule gsize a (<[arg_v3 a := sums_where P l1 l2 l3]> m) =
  Some (<[arg_v3 a :=
            sums_where (λ i, P i || covered n gsize schedule i) l1 l2 l3]> m).
Proof.
  intros Hc Hn. unfold run_items. revert P.
  induction schedule as [|gid schedule IH]; intros P F1 F2 F3; simpl.
  - do 2 f_equal. apply sums_where_ext. intros i _. by rewrite orb_false_r.
  - inversion_clear F1. inversion_clear F2. inversion_clear F3.
    rewrite (add_sums P l3 cs n) by done. simpl.
    rewrite IH by done. do 2 f_equal.
    apply sums_where_ext. intros i _. by rewrite orb_assoc.
Qed.

(** The output buffer after a launch of [add], whatever the order in
    which the work-items run. *)
Lemma launch_add (l3 cs : list Z) n schedule gsize :
  m !! arg_v3 a = Some l3 →
  m !! arg_constants a = Some cs → cs !! 0%nat = Some n →
  Forall (fits n gsize (length l1)) schedule →
  Forall (fits n gsize (length l2)) schedule →
  Forall (fits n gsize (length l3)) schedule →
  run_items add schedule gsize a m =
  Some (<[arg_v3 a := sums_where (covered n gsize schedule) l1 l2 l3]> m).
Proof.
  intros Hv3 Hc Hn F1 F2 F3.
  rewrite <- (insert_id m (arg_v3 a) l3) at 1 by done.
  rewrite <- (sums_where_nowhere l1 l2 l3) at 1.
  by rewrite (run_items_add_sums _ l3 cs n).
Qed.

End kernel_facts.

(** ** The ranges of the work-items *)

Section ranges.
Context (n Nthreads : Z).
Context (Hn : 0 <= n) (Hnr : Int.in_range n).
Context (HT : 0 < Nthreads) (HTr : Int.in_range Nthreads).

Lemma ratio_bounds : 0 <= n / Nthreads ∧ n / Nthreads * Nthreads <= n.
Proof.
  split; [by apply Z.div_pos|].
  rewrite Z.mul_comm. by apply Z.mul_div_le.
Qed.

Lemma item_range_exact ID :
  0 <= ID < Nthreads →
  item_range n Nthreads ID =
  Some (n / Nthreads * ID, n / Nthreads * (ID + 1)).
Proof.
  intros HID. unfold item_range. rewrite div_id by done. simpl.
  destruct ratio_bounds as [Hr0 Hr1].
  assert (Int.in_range (ID + 1)) by int_lia.
  rewrite (add_id ID 1) by done.
  assert (0 <= n / Nthreads * ID <= n) by nia.
  assert (0 <= n / Nthreads * (ID + 1) <= n) by nia.
  rewrite !mul_id by int_lia. done.
Qed.

Lemma in_item_exact ID i :
  0 <= ID < Nthreads →
  in_item n Nthreads ID i =
  bool_decide (n / Nthreads * ID <= i < n / Nthreads * (ID + 1)).
Proof.
  intros HID. unfold in_item.
  rewrite !wrap_id by int_lia. by rewrite item_range_exact.
Qed.

Lemma fits_exact (len : nat) ID :
  0 <= ID < Nthreads → n / Nthreads * Nthreads <= Z.of_nat len →
  fits n Nthreads len ID.
Proof.
  intros HID Hlen. unfold fits.
  rewrite !wrap_id by int_lia. rewrite item_range_exact by done.
  destruct ratio_bounds. nia.
Qed.

Lemma in_item_disjoint ID ID' i :
  0 <= ID < Nthreads → 0 <= ID' < Nthreads →
  in_item n Nthreads ID i = true → in_item n Nthreads ID' i = true →
  ID = ID'.
Proof.
  intros H H'. rewrite !in_item_exact by done.
  rewrite !bool_decide_eq_true. nia.
Qed.

Lemma in_item_union i :
  (∃ ID, 0 <= ID < Nthreads ∧ in_item n Nthreads ID i = true) ↔
  0 <= i < n / Nthreads * Nthreads.
Proof.
  destruct ratio_bounds as [Hr0 Hr1]. split.
  - intros (ID & HID & Hi). rewrite in_item_exact in Hi by done.
    apply bool_decide_eq_true in Hi. nia.
  - intros Hi. assert (0 < n / Nthreads) as Hr by nia.
    exists (i / (n / Nthreads)).
    pose proof (Z.div_pos i (n / Nthreads) (proj1 Hi) Hr).
    pose proof (Z.mul_div_le i (n / Nthreads) Hr).
    pose proof (Z.mul_succ_div_gt i (n / Nthreads) Hr).
    assert (i / (n / Nthreads) < Nthreads).
    { apply Z.div_lt_upper_bound; lia. }
    split; [lia|]. rewrite in_item_exact by lia.
    apply bool_decide_eq_true. lia.
Qed.

Lemma ratio_exact : n / Nthreads * Nthreads = n ↔ (Nthreads | n).
Proof.
  split.
  - intros H. exists (n / Nthreads). lia.
  - intros [q ->]. rewrite Z.div_mul by lia. done.
Qed.

(** A schedule that runs every work-item covers the indices below
    [n / Nthreads * Nthreads], and no other. *)
Lemma covered_complete schedule i :
  (∀ gid, gid ∈ schedule ↔ 0 <= gid < Nthreads) →
  covered n Nthreads schedule i = bool_decide (0 <= i < n / Nthreads * Nthreads).
Proof.
  intros Hs. apply eq_true_iff_eq. unfold covered.
  rewrite existsb_exists, bool_decide_eq_true, <- in_item_union.
  split; intros (gid & H1 & H2); exists gid.
  - split; [|done]. by apply Hs, list_elem_of_In.
  - split; [|done]. by apply list_elem_of_In, Hs.
Qed.

End ranges.

(** ** A launch over the whole of the vectors *)

Section launch_facts.
Context (a : kernel_args) (Hsep : separate a).
Context (m : memory) (l1 l2 l3 cs : list Z) (n k Nthreads : Z).
Context (Hv1 : m !! arg_v1 a = Some l1) (Hv2 : m !! arg_v2 a = Some l2).
Context (Hv3 : m !! arg_v3 a = Some l3).
Context (Hc : m !! arg_constants a = Some cs).
Context (Hcn : cs !! 0%nat = Some n) (Hck : cs !! 1%nat = Some k).
Context (Hn : 0 <= n) (Hnr : Int.in_range n).
Context (HT : 0 < Nthreads) (HTr : Int.in_range Nthreads).
Context (Hdiv : (Nthreads | n)).
Context (Hl1 : length l1 = Z.to_nat n) (Hl2 : length l2 = Z.to_nat n).
Context (Hl3 : length l3 = Z.to_nat n).

Lemma launch_add_everywhere schedule :
  (∀ gid, gid ∈ schedule ↔ 0 <= gid < Nthreads) →
  run_items add schedule Nthreads a m =
  Some (<[arg_v3 a := zip_with Int.add l1 l2]> m).
Proof.
  intros Hs.
  assert (n / Nthreads * Nthreads = n) as Hr by (by apply ratio_exact).
  assert (∀ len, len = Z.to_nat n →
            Forall (fits n Nthreads len) schedule) as Hfits.
  { intros len ->. apply Forall_forall. intros gid Hgid%Hs.
    apply fits_exact; try done. lia. }
  rewrite (launch_add a Hsep m l1 l2 Hv1 Hv2 l3 cs n) by auto.
  do 2 f_equal. apply sums_where_everywhere; [congruence..|].
  intros i Hi. rewrite covered_complete by done.
  apply bool_decide_eq_true. lia.
Qed.

Lemma launch_looped_add_everywhere schedule :
  1 <= k →
  (∀ gid, gid ∈ schedule ↔ 0 <= gid < Nthreads) →
  run_items looped_add schedule Nthreads a m =
  Some (<[arg_v3 a := zip_with Int.add l1 l2]> m).
Proof.
  intros Hk Hs. rewrite (looped_add_launch a Hsep _ _ m k); [|..|done].
  - by apply launch_add_everywhere.
  - by rewrite (load_lookup m _ cs).
Qed.

(** The work-items share no element: the order in which a launch runs
    them does not show in its result. *)
Lemma launch_order_irrelevant schedule :
  schedule ≡ₚ seqZ 0 Nthreads →
  run_items add schedule Nthreads a m =
  run_items add (seqZ 0 Nthreads) Nthreads a m.
Proof.
  intros Hp.
  rewrite !launch_add_everywhere; [done|..].
  - intros gid. rewrite elem_of_seqZ. lia.
  - intros gid. rewrite Hp, elem_of_seqZ. lia.
Qed.

End launch_facts.

(** ** Work-items side by side *)

Section interleavings.

Lemma elem_of_interleaved {A} (ls : list (list A)) (r : list A) x :
  interleaved ls r → x ∈ r ↔ ∃ l, l ∈ ls ∧ x ∈ l.
Proof.
  induction 1 as [ls Hls|ls1 y l ls2 r _ IH].
  - split; [by intros ?%elem_of_nil|].
    intros (l & Hl & Hx). rewrite Forall_forall in Hls.
    rewrite (Hls l Hl) in Hx. by apply elem_of_nil in Hx.
  - rewrite elem_of_cons, IH. split.
    + intros [->|(l' & Hl' & Hx)].
      * exists (y :: l). split; [|by left].
        apply elem_of_app. right. by left.
      * apply elem_of_app in Hl' as [Hl'|[->|Hl']%elem_of_cons].
        -- exists l'. split; [|done]. apply elem_of_app. by left.
        -- exists (y :: l). split; [|by right].
           apply elem_of_app. right. by left.
        -- exists l'. split; [|done]. apply elem_of_app. right. by right.
    + intros (l' & Hl' & Hx).
      apply elem_of_app in Hl' as [Hl'|[->|Hl']%elem_of_cons].
      * right. exists l'. split; [|done]. apply elem_of_app. by left.
      * apply elem_of_cons in Hx as [->|Hx]; [by left|].
        right. exists l. split; [|done]. apply elem_of_app. right. by left.
      * right. exists l'. split; [|done]. apply elem_of_app. right. by right.
Qed.

Context (a : kernel_args) (Hsep : separate a).
Context (m : memory) (l1 l2 l3 cs : list Z) (n k Nthreads : Z).
Context (Hv1 : m !! arg_v1 a = Some l1) (Hv2 : m !! arg_v2 a = Some l2).
Context (Hv3 : m !! arg_v3 a = Some l3).
Context (Hc : m !! arg_constants a = Some cs).
Context (Hcn : cs !! 0%nat = Some n) (Hck : cs !! 1%nat = Some k).
Context (Hn : 0 <= n) (Hnr : Int.in_range n).
Context (HT : 0 < Nthreads) (HTr : Int.in_range Nthreads).
Context (Hdiv : (Nthreads | n)).
Context (Hl1 : length l1 = Z.to_nat n) (Hl2 : length l2 = Z.to_nat n).
Context (Hl3 : length l3 = Z.to_nat n).

(** A work-item is the list of its assignments. *)
Lemma add_as_assignments gid gsize :
  is_Some (item_range n (Int.wrap gsize) (Int.wrap gid)) →
  add gid gsize a m = each (add_element a) (add_indices n gsize gid) m.
Proof.
  intros [[start stop] E]. unfold add, add_indices.
  rewrite (load_lookup m _ cs) by done. change (Z.to_nat 0) with 0%nat.
  rewrite Hcn. simpl. rewrite E. simpl. unfold for_loop. apply for_iter_each.
Qed.

Lemma looped_add_as_assignments gid gsize :
  is_Some (item_range n (Int.wrap gsize) (Int.wrap gid)) →
  looped_add gid gsize a m =
  each (add_element a) (looped_add_indices n k gsize gid) m.
Proof.
  intros [[start stop] E]. unfold looped_add, looped_add_indices, add_indices.
  rewrite !(load_lookup m _ cs) by done.
  change (Z.to_nat 0) with 0%nat. change (Z.to_nat 1) with 1%nat.
  rewrite Hcn. simpl. rewrite Hck. simpl. rewrite E. simpl.
  unfold for_loop at 1. rewrite <- (for_iter_repeat _ 0).
  apply for_iter_ext. intros _ m'. unfold for_loop. apply for_iter_each.
Qed.

Lemma add_indices_exact gid :
  0 <= gid < Nthreads →
  add_indices n Nthreads gid = seqZ (n / Nthreads * gid) (n / Nthreads).
Proof.
  intros Hgid. unfold add_indices. rewrite !wrap_id by int_lia.
  rewrite item_range_exact by done.
  destruct (ratio_bounds n Nthreads) as [Hr0 Hr1]; [done..|].
  assert (0 <= n / Nthreads * gid ∧ n / Nthreads * (gid + 1) <= n) by nia.
  rewrite loop_indices_seqZ by int_lia. f_equal. lia.
Qed.

Lemma elem_of_add_indices j :
  (∃ gid, 0 <= gid < Nthreads ∧ j ∈ add_indices n Nthreads gid) ↔ 0 <= j < n.
Proof.
  assert (n / Nthreads * Nthreads = n) as Hr by (by apply ratio_exact).
  transitivity (0 <= j < n / Nthreads * Nthreads); [|by rewrite Hr].
  rewrite <- (in_item_union n Nthreads) by done.
  split; intros (gid & Hgid & Hj); exists gid; (split; [done|]).
  - rewrite in_item_exact by done. apply bool_decide_eq_true.
    rewrite add_indices_exact, elem_of_seqZ in Hj by done. lia.
  - rewrite in_item_exact in Hj by done. apply bool_decide_eq_true in Hj.
    rewrite add_indices_exact, elem_of_seqZ by done. lia.
Qed.

(** Assignments that reach every index of the vectors, and no other
    index, leave the sums in the output buffer. *)
Lemma assignments_everywhere js :
  (∀ j, j ∈ js ↔ 0 <= j < n) →
  each (add_element a) js m = Some (<[arg_v3 a := zip_with Int.add l1 l2]> m).
Proof.
  intros Hjs.
  rewrite <- (insert_id m (arg_v3 a) l3) at 1 by done.
  rewrite <- (sums_where_nowhere l1 l2 l3) at 1.
  rewrite (each_add_element_sums a Hsep m l1 l2 Hv1 Hv2).
  - do 2 f_equal. apply sums_where_everywhere; [congruence..|].
    intros i Hi. simpl. apply bool_decide_eq_true, Hjs. lia.
  - apply Forall_forall. intros j Hj%Hjs. lia.
Qed.

(** However the assignments of the work-items of [add] interleave, the
    launch leaves what their run one after the other leaves. *)
Lemma add_interleaved js :
  interleaved (add_indices n Nthreads <$> seqZ 0 Nthreads) js →
  each (add_element a) js m = run_items add (seqZ 0 Nthreads) Nthreads a m.
Proof.
  intros Hjs.
  rewrite (launch_add_everywhere a Hsep m l1 l2 l3 cs n Nthreads);
    try done; [|intros gid; rewrite elem_of_seqZ; lia].
  apply assignments_everywhere. intros j.
  rewrite (elem_of_interleaved _ _ j Hjs), <- elem_of_add_indices.
  setoid_rewrite list_elem_of_fmap. setoid_rewrite elem_of_seqZ.
  split.
  - intros (l & (gid & -> & Hgid) & Hj). exists gid. split; [lia|done].
  - intros (gid & Hgid & Hj). exists (add_indices n Nthreads gid).
    split; [|done]. exists gid. split; [done|lia].
Qed.

(** The same for [looped_add], with one iteration at least. *)
Lemma looped_add_interleaved js :
  1 <= k →
  interleaved (looped_add_indices n k Nthreads <$> seqZ 0 Nthreads) js →
  each (add_element a) js m =
  run_items looped_add (seqZ 0 Nthreads) Nthreads a m.
Proof.
  intros Hk Hjs.
  rewrite (launch_looped_add_everywhere a Hsep m l1 l2 l3 cs n k Nthreads);
    try done; [|intros gid; rewrite elem_of_seqZ; lia].
  apply assignments_everywhere. intros j.
  rewrite (elem_of_interleaved _ _ j Hjs), <- elem_of_add_indices.
  setoid_rewrite list_elem_of_fmap. setoid_rewrite elem_of_seqZ.
  assert (∀ gid, j ∈ looped_add_indices n k Nthreads gid ↔
                 j ∈ add_indices n Nthreads gid) as Hrep.
  { intros gid. unfold looped_add_indices.
    destruct (Z.to_nat (k - 0)) as [|count] eqn:E; [lia|].
    generalize (add_indices n Nthreads gid). intros l. clear.
    induction count as [|count IH]; simpl in *.
    - by rewrite app_nil_r.
    - rewrite elem_of_app, IH. tauto. }
  split.
  - intros (l & (gid & -> & Hgid) & Hj). exists gid.
    split; [lia|by apply Hrep].
  - intros (gid & Hgid & Hj). exists (looped_add_indices n k Nthreads gid).
    split; [|by apply Hrep]. exists gid. split; [done|lia].
Qed.

End interleavings.

(** ** The loops of the host *)

Section host_loops.

Lemma cpu_construct_shape n : cpu_construct n = construct (λ i, Int.sub n i).
Proof. done. Qed.

Lemma main_construct_shape n :
  main_construct n = construct (λ i, Int.sub (Int.sub n i) 1).
Proof. done. Qed.

Lemma construct_step fB P (a0 b0 c0 : list Z) j :
  0 <= j < Z.of_nat (length a0) → 0 <= j < Z.of_nat (length b0) →
  0 <= j < Z.of_nat (length c0) →
  construct fB j
    {| vec_A := set_where P (λ i, i) a0; vec_B := set_where P fB b0;
       vec_C := set_where P (λ _, 0) c0 |} =
  let Q i := P i || bool_decide (i = j) in
  Some {| vec_A := set_where Q (λ i, i) a0; vec_B := set_where Q fB b0;
          vec_C := set_where Q (λ _, 0) c0 |}.
Proof.
  intros Ha Hb Hc. unfold construct. simpl.
  rewrite (array_set_set_where P (λ i, i) a0 j) by lia. simpl.
  rewrite (array_set_set_where P fB b0 j) by lia. simpl.
  by rewrite (array_set_set_where P (λ _, 0) c0 j) by lia.
Qed.

Lemma each_construct fB P (a0 b0 c0 : list Z) start (count : nat) :
  0 <= start →
  start + Z.of_nat count <= Z.of_nat (length a0) →
  start + Z.of_nat count <= Z.of_nat (length b0) →
  start + Z.of_nat count <= Z.of_nat (length c0) →
  each (construct fB) (seqZ start (Z.of_nat count))
    {| vec_A := set_where P (λ i, i) a0; vec_B := set_where P fB b0;
       vec_C := set_where P (λ _, 0) c0 |} =
  let Q i := P i || bool_decide (start <= i < start + Z.of_nat count) in
  Some {| vec_A := set_where Q (λ i, i) a0; vec_B := set_where Q fB b0;
          vec_C := set_where Q (λ _, 0) c0 |}.
Proof.
  revert start P. induction count as [|count IH]; intros start P H0 H1 H2 H3.
  - rewrite seqZ_nil by lia. simpl. do 2 f_equal;
      (apply set_where_ext; [|done]); intros i _;
      rewrite bool_decide_eq_false_2 by lia; by rewrite orb_false_r.
  - rewrite seqZ_cons by lia. cbn [each].
    rewrite construct_step by lia. cbn [mbind option_bind].
    replace (Z.pred (Z.of_nat (S count))) with (Z.of_nat count) by lia.
    rewrite IH by lia. cbv zeta. do 2 f_equal;
      (apply set_where_ext; [|done]); intros i _;
      rewrite <- orb_assoc; f_equal; apply eq_true_iff_eq;
      rewrite orb_true_iff, !bool_decide_eq_true; lia.
Qed.

(** The loops at lines 12-16 and 119-123 fill the three arrays. *)
Lemma construct_loop fB n (a0 b0 c0 : list Z) :
  0 <= n → Int.in_range n →
  length a0 = Z.to_nat n → length b0 = Z.to_nat n → length c0 = Z.to_nat n →
  for_loop 0 n (construct fB) {| vec_A := a0; vec_B := b0; vec_C := c0 |} =
  Some {| vec_A := seqZ 0 n; vec_B := fB <$> seqZ 0 n;
          vec_C := (λ _, 0) <$> seqZ 0 n |}.
Proof.
  intros Hn Hr Ha Hb Hc. rewrite for_loop_each by int_lia.
  rewrite <- (set_where_nowhere (λ i, i) a0) at 1.
  rewrite <- (set_where_nowhere fB b0) at 1.
  rewrite <- (set_where_nowhere (λ _, 0) c0) at 1.
  replace (n - 0) with (Z.of_nat (Z.to_nat n)) by lia.
  rewrite (each_construct fB (λ _, false) a0 b0 c0 0 (Z.to_nat n)) by lia.
  cbv zeta. rewrite !set_where_everywhere
    by (intros i Hi; simpl; apply bool_decide_eq_true; lia).
  rewrite Ha, Hb, Hc. rewrite !Z2Nat.id by lia.
  by replace ((λ i : Z, i) <$> seqZ 0 n) with (seqZ 0 n)
    by (symmetry; apply list_fmap_id).
Qed.

Lemma length_uninitialised e name n :
  length (uninitialised e name n) = Z.to_nat n.
Proof. unfold uninitialised. by rewrite length_fmap, length_seqZ. Qed.

Lemma cpu_add_element_step P (A B C : list Z) j :
  0 <= j < Z.of_nat (length A) → 0 <= j < Z.of_nat (length B) →
  0 <= j < Z.of_nat (length C) →
  cpu_add_element j {| vec_A := A; vec_B := B; vec_C := sums_where P A B C |} =
  Some {| vec_A := A; vec_B := B;
          vec_C := sums_where (λ i, P i || bool_decide (i = j)) A B C |}.
Proof.
  intros Ha Hb Hc. unfold cpu_add_element. simpl.
  destruct (lookup_lt_is_Some_2 A (Z.to_nat j)) as [x Ex]; [lia|].
  destruct (lookup_lt_is_Some_2 B (Z.to_nat j)) as [y Ey]; [lia|].
  unfold array_get. rewrite !decide_True by lia. rewrite Ex. simpl.
  rewrite Ey. simpl.
  unfold array_set. rewrite length_sums_where.
  rewrite decide_True by lia. simpl.
  by rewrite (sums_where_insert P A B C j x y) by (done || lia).
Qed.

Lemma each_cpu_add_element P (A B C : list Z) start (count : nat) :
  0 <= start →
  start + Z.of_nat count <= Z.of_nat (length A) →
  start + Z.of_nat count <= Z.of_nat (length B) →
  start + Z.of_nat count <= Z.of_nat (length C) →
  each cpu_add_element (seqZ start (Z.of_nat count))
    {| vec_A := A; vec_B := B; vec_C := sums_where P A B C |} =
  Some {| vec_A := A; vec_B := B;
          vec_C := sums_where
                     (λ i, P i ||
                           bool_decide (start <= i < start + Z.of_nat count))
                     A B C |}.
Proof.
  revert start P. induction count as [|count IH]; intros start P H0 H1 H2 H3.
  - rewrite seqZ_nil by lia. simpl. do 2 f_equal.
    apply sums_where_ext. intros i _.
    rewrite bool_decide_eq_false_2 by lia. by rewrite orb_false_r.
  - rewrite seqZ_cons by lia. cbn [each].
    rewrite cpu_add_element_step by lia. cbn [mbind option_bind].
    replace (Z.pred (Z.of_nat (S count))) with (Z.of_nat count) by lia.
    rewrite IH by lia. do 2 f_equal.
    apply sums_where_ext. intros i _. rewrite <- orb_assoc. f_equal.
    apply eq_true_iff_eq. rewrite orb_true_iff, !bool_decide_eq_true. lia.
Qed.

(** One pass of the loop at lines 20-22. *)
Lemma cpu_add_pass n (A B C : list Z) :
  0 <= n → Int.in_range n →
  length A = Z.to_nat n → length B = Z.to_nat n → length C = Z.to_nat n →
  for_loop 0 n cpu_add_element {| vec_A := A; vec_B := B; vec_C := C |} =
  Some {| vec_A := A; vec_B := B; vec_C := zip_with Int.add A B |}.
Proof.
  intros Hn Hr Ha Hb Hc. rewrite for_loop_each by int_lia.
  rewrite <- (sums_where_nowhere A B C) at 1.
  replace (n - 0) with (Z.of_nat (Z.to_nat n)) by lia.
  rewrite (each_cpu_add_element (λ _, false) A B C 0 (Z.to_nat n)) by lia.
  do 2 f_equal. apply sums_where_everywhere; [congruence..|].
  intros i Hi. simpl. apply bool_decide_eq_true. lia.
Qed.

(** The loop nest at lines 19-23. *)
Lemma cpu_add_loops_sums n k (A B C : list Z) :
  0 <= n → Int.in_range n → 1 <= k →
  length A = Z.to_nat n → length B = Z.to_nat n → length C = Z.to_nat n →
  cpu_add_loops n k {| vec_A := A; vec_B := B; vec_C := C |} =
  Some {| vec_A := A; vec_B := B; vec_C := zip_with Int.add A B |}.
Proof.
  intros Hn Hr Hk Ha Hb Hc. unfold cpu_add_loops.
  rewrite for_loop_idempotent; [by apply cpu_add_pass|done|].
  intros v. rewrite cpu_add_pass by done. intros [= <-].
  apply cpu_add_pass; try done.
  rewrite length_zip_with. lia.
Qed.

End host_loops.

(** ** The steps of the host *)

Section host_steps.
Implicit Types (s : host_state) (m : memory) (cs : list cl_call).

Lemma bind_Done {A B} (c : host A) (f : A → host B) s x s' :
  c s = Done x s' → (c ≫= f) s = f x s'.
Proof. intros H. unfold mbind, host_bind. by rewrite H. Qed.

Lemma fmap_Done {A B} (c : host A) (f : A → B) s x s' :
  c s = Done x s' → (f <$> c) s = Done (f x) s'.
Proof. intros H. unfold fmap, host_fmap. by rewrite (bind_Done _ _ _ x s'). Qed.

Lemma advance_start s : advance s (host_device s) 0 [] 0 = s.
Proof. destruct s. unfold advance. simpl. by rewrite app_nil_r. Qed.

Lemma clock_advance e s m handles cs reads :
  clock e (advance s m handles cs reads) =
  Done (env_clock e (reads + host_clock_reads s))
       (advance s m handles cs (S reads)).
Proof. done. Qed.

Lemma create_buffer_advance e name flags size s m handles cs reads :
  create_buffer e name flags size (advance s m handles cs reads) =
  let h := (handles + host_next_handle s)%nat in
  Done h (advance s (<[h := uninitialised e name (size `quot` sizeof_int)]> m)
            (S handles) (cs ++ [CreateBuffer h flags size]) reads).
Proof.
  unfold create_buffer, advance. simpl. by rewrite <- app_assoc.
Qed.

Lemma elements_of_bytes n : 0 <= n → (sizeof_int * n) `quot` sizeof_int = n.
Proof.
  intros Hn. unfold sizeof_int. rewrite Z.quot_div_nonneg by lia.
  rewrite Z.mul_comm. apply Z.div_mul. lia.
Qed.

Lemma list_inserts_whole (src l : list Z) :
  length src = length l → list_inserts 0 (take (length l) src) l = src.
Proof.
  intros Hlen. rewrite <- Hlen, firstn_all. apply list_eq. intros i.
  destruct (decide (i < length src)%nat).
  - rewrite list_lookup_inserts by lia. f_equal. lia.
  - rewrite list_lookup_inserts_ge by lia.
    rewrite !lookup_ge_None_2 by lia. done.
Qed.

(** A write of the whole of a buffer. *)
Lemma enqueueWriteBuffer_advance h blocking n name (src l : list Z)
    s m handles cs reads :
  0 <= n → m !! h = Some l →
  length l = Z.to_nat n → length src = Z.to_nat n →
  enqueueWriteBuffer h blocking 0 (sizeof_int * n) name src
    (advance s m handles cs reads) =
  Done tt (advance s (<[h := src]> m) handles
             (cs ++ [EnqueueWriteBuffer h blocking 0 (sizeof_int * n) name])
             reads).
Proof.
  intros Hn Hh Hl Hsrc. unfold enqueueWriteBuffer. simpl. rewrite Hh.
  rewrite elements_of_bytes by done.
  rewrite decide_True by lia.
  rewrite decide_True by (unfold sizeof_int; lia).
  rewrite <- Hl, list_inserts_whole by lia.
  unfold issue, advance. simpl. by rewrite <- app_assoc.
Qed.

(** A read of the whole of a buffer. *)
Lemma enqueueReadBuffer_advance h blocking n name (dst l : list Z)
    s m handles cs reads :
  0 <= n → m !! h = Some l →
  length l = Z.to_nat n → length dst = Z.to_nat n →
  enqueueReadBuffer h blocking 0 (sizeof_int * n) name dst
    (advance s m handles cs reads) =
  Done l (advance s m handles
            (cs ++ [EnqueueReadBuffer h blocking 0 (sizeof_int * n) name])
            reads).
Proof.
  intros Hn Hh Hl Hdst. unfold enqueueReadBuffer. simpl. rewrite Hh.
  rewrite elements_of_bytes by done.
  rewrite decide_True by lia.
  rewrite decide_True by (unfold sizeof_int; lia).
  change (Z.to_nat (0 `quot` sizeof_int)) with 0%nat. rewrite drop_0.
  replace (Z.to_nat n) with (length dst) by done.
  rewrite list_inserts_whole by lia.
  unfold issue, advance. simpl. by rewrite <- app_assoc.
Qed.

Lemma call_advance f a m' s m handles cs reads :
  run_items (kernel_of (functor_kernel f)) (seqZ 0 (functor_global f))
    (functor_global f) a m = Some m' →
  call f a (advance s m handles cs reads) =
  Done tt (advance s m' handles
             (cs ++ [EnqueueNDRangeKernel (functor_kernel f)
                       (functor_global f) a])
             reads).
Proof.
  intros H. unfold call. simpl. rewrite H.
  unfold issue, advance. simpl. by rewrite <- app_assoc.
Qed.

End host_steps.

(** ** The two versions on the device *)

Ltac lookup_insert :=
  simpl arg_v1; simpl arg_v2; simpl arg_v3; simpl arg_constants;
  repeat first [ rewrite lookup_insert_eq
               | rewrite lookup_insert_ne by lia ];
  try done.

Ltac host_step lem :=
  erewrite bind_Done; [|apply lem]; cbv beta zeta.

(** Side conditions of the steps: sizes, handles and buffer contents. *)
Ltac host_side :=
  first [ done | lia | apply length_uninitialised
        | by rewrite length_zip_with; lia
        | by lookup_insert
        | by (unfold separate; simpl; lia) ].

Section versions.
Context (e : env) (n k Nthreads : Z) (A B C : list Z).
Context (Hn : 0 <= n) (Hnr : Int.in_range n).
Context (HT : 0 < Nthreads) (HTr : Int.in_range Nthreads).
Context (Hdiv : (Nthreads | n)) (Hk : 1 <= k).
Context (HA : length A = Z.to_nat n) (HB : length B = Z.to_nat n).
Context (HC : length C = Z.to_nat n).

Lemma whole_schedule gid : gid ∈ seqZ 0 Nthreads ↔ 0 <= gid < Nthreads.
Proof. rewrite elem_of_seqZ. lia. Qed.

Lemma gpu_version1_advance s m handles cs reads :
  let h := (handles + host_next_handle s)%nat in
  gpu_version1 e n (Functor Kernel_looped_add Nthreads) [n; k]
    {| vec_A := A; vec_B := B; vec_C := C |}
    (advance s m handles cs reads) =
  Done (seconds e (env_clock e (reads + host_clock_reads s))
                  (env_clock e (S reads + host_clock_reads s)),
        zip_with Int.add A B)
       (advance s
          (computed [n; k] A B h
             (created e ("buffer_A", "buffer_B", "buffer_C",
                         "buffer_constants") n h m))
          (4 + handles) (cs ++ version1_calls n Nthreads h) (2 + reads)).
Proof.
  intros h. unfold gpu_version1.
  host_step clock_advance.
  do 4 host_step create_buffer_advance.
  rewrite !elements_of_bytes by lia.
  simpl vec_A. simpl vec_B. simpl vec_C.
  erewrite bind_Done;
    [|by apply (enqueueWriteBuffer_advance _ _ n _ _
                  (uninitialised e "buffer_A" n)); host_side].
  erewrite bind_Done;
    [|by apply (enqueueWriteBuffer_advance _ _ n _ _
                  (uninitialised e "buffer_B" n)); host_side].
  erewrite bind_Done;
    [|by apply (enqueueWriteBuffer_advance _ _ 2 _ _
                  (uninitialised e "buffer_constants" 2)); host_side].
  erewrite bind_Done;
    [|apply call_advance;
      by apply launch_looped_add_everywhere
           with (l1 := A) (l2 := B) (l3 := uninitialised e "buffer_C" n)
                (cs := [n; k]) (n := n) (k := k);
         first [host_side | apply whole_schedule] ].
  erewrite bind_Done;
    [|by apply (enqueueReadBuffer_advance _ _ n _ _ (zip_with Int.add A B));
         host_side].
  host_step clock_advance.
  unfold mret, host_ret, computed, created, version1_calls.
  rewrite <- !app_assoc. reflexivity.
Qed.

Lemma computed_twice constants h (m : memory) :
  computed constants A B h (computed constants A B h m) =
  computed constants A B h m.
Proof.
  apply map_eq. intros p. unfold computed.
  rewrite !lookup_insert. repeat case_decide; done || lia.
Qed.

Lemma version2_iteration_advance h (lA lB lC lc : list Z)
    s m handles cs reads :
  m !! h = Some lA → m !! (1 + h)%nat = Some lB →
  m !! (2 + h)%nat = Some lC → m !! (3 + h)%nat = Some lc →
  length lA = Z.to_nat n → length lB = Z.to_nat n →
  length lC = Z.to_nat n → length lc = 2%nat →
  version2_iteration n (Functor Kernel_add Nthreads) [n; k] A B h
    (advance s m handles cs reads) =
  Done tt (advance s (computed [n; k] A B h m) handles
             (cs ++ iteration_calls n Nthreads h) reads).
Proof.
  intros EA EB EC Ec LA LB LC Lc. unfold version2_iteration.
  erewrite bind_Done;
    [|by apply (enqueueWriteBuffer_advance _ _ n _ _ lA); host_side].
  erewrite bind_Done;
    [|by apply (enqueueWriteBuffer_advance _ _ n _ _ lB); host_side].
  erewrite bind_Done;
    [|by apply (enqueueWriteBuffer_advance _ _ 2 _ _ lc); host_side].
  erewrite call_advance;
    [|by apply launch_add_everywhere
           with (l1 := A) (l2 := B) (l3 := lC) (cs := [n; k]) (n := n);
         first [host_side | apply whole_schedule] ].
  unfold computed, iteration_calls.
  rewrite <- !app_assoc. reflexivity.
Qed.

Lemma version2_loop_steady h count j s m handles cs reads :
  host_for_iter count j
    (λ _, version2_iteration n (Functor Kernel_add Nthreads) [n; k] A B h)
    (advance s (computed [n; k] A B h m) handles cs reads) =
  Done tt (advance s (computed [n; k] A B h m) handles
             (cs ++ concat (replicate count (iteration_calls n Nthreads h)))
             reads).
Proof.
  revert j cs. induction count as [|count IH]; intros j cs.
  - simpl. by rewrite app_nil_r.
  - cbn [host_for_iter].
    erewrite bind_Done;
      [|by apply (version2_iteration_advance h A B (zip_with Int.add A B)
                    [n; k]);
           unfold computed; host_side].
    rewrite computed_twice, IH. simpl. by rewrite <- app_assoc.
Qed.

Lemma version2_loop h (lA lB lC lc : list Z) s m handles cs reads :
  m !! h = Some lA → m !! (1 + h)%nat = Some lB →
  m !! (2 + h)%nat = Some lC → m !! (3 + h)%nat = Some lc →
  length lA = Z.to_nat n → length lB = Z.to_nat n →
  length lC = Z.to_nat n → length lc = 2%nat →
  host_for 0 k
    (λ _, version2_iteration n (Functor Kernel_add Nthreads) [n; k] A B h)
    (advance s m handles cs reads) =
  Done tt (advance s (computed [n; k] A B h m) handles
             (cs ++ concat (replicate (Z.to_nat k)
                              (iteration_calls n Nthreads h)))
             reads).
Proof.
  intros EA EB EC Ec LA LB LC Lc. unfold host_for.
  replace (k - 0) with k by lia.
  destruct (Z.to_nat k) as [|count] eqn:E; [lia|].
  cbn [host_for_iter].
  erewrite bind_Done;
    [|by apply (version2_iteration_advance h lA lB lC lc)].
  rewrite version2_loop_steady. simpl. by rewrite <- app_assoc.
Qed.

Lemma gpu_version2_advance s m handles cs reads :
  let h := (handles + host_next_handle s)%nat in
  gpu_version2 e n k (Functor Kernel_add Nthreads) [n; k] A B C
    (advance s m handles cs reads) =
  Done (seconds e (env_clock e (reads + host_clock_reads s))
                  (env_clock e (S reads + host_clock_reads s)),
        zip_with Int.add A B)
       (advance s
          (computed [n; k] A B h
             (created e ("buffer_A2", "buffer_B2", "buffer_C2",
                         "buffer_constants2") n h m))
          (4 + handles) (cs ++ version2_calls n k Nthreads h) (2 + reads)).
Proof.
  intros h. unfold gpu_version2.
  host_step clock_advance.
  do 4 host_step create_buffer_advance.
  rewrite !elements_of_bytes by lia.
  erewrite bind_Done;
    [|by apply (version2_loop h (uninitialised e "buffer_A2" n)
                  (uninitialised e "buffer_B2" n)
                  (uninitialised e "buffer_C2" n)
                  (uninitialised e "buffer_constants2" 2));
         host_side].
  erewrite bind_Done;
    [|by apply (enqueueReadBuffer_advance _ _ n _ _ (zip_with Int.add A B));
         unfold computed; host_side].
  host_step clock_advance.
  unfold mret, host_ret, created, version2_calls.
  rewrite <- !app_assoc. reflexivity.
Qed.

End versions.

(** ** The measurements *)

Section measurements.
Context (e : env) (n k Nthreads : Z).
Context (Hn : 0 <= n) (Hnr : Int.in_range n).
Context (HT : 0 < Nthreads) (HTr : Int.in_range Nthreads).
Context (Hdiv : (Nthreads | n)) (Hk : 1 <= k).

Lemma bind_local {A B} (x : A) (f : A → host B) s :
  (local (Some x) ≫= f) s = f x s.
Proof. done. Qed.

Lemma length_gpu_B : length (gpu_B n) = Z.to_nat n.
Proof. unfold gpu_B. by rewrite length_fmap, length_seqZ. Qed.

Lemma timeAddVectorsCPU_locals_advance s m handles cs reads :
  timeAddVectorsCPU_locals e n k (advance s m handles cs reads) =
  Done (seconds e (env_clock e (reads + host_clock_reads s))
                  (env_clock e (S reads + host_clock_reads s)),
        {| vec_A := seqZ 0 n; vec_B := cpu_B n;
           vec_C := zip_with Int.add (seqZ 0 n) (cpu_B n) |})
       (advance s m handles cs (2 + reads)).
Proof.
  unfold timeAddVectorsCPU_locals, declare_vectors.
  rewrite cpu_construct_shape.
  rewrite construct_loop by (done || apply length_uninitialised).
  rewrite bind_local. host_step clock_advance.
  rewrite cpu_add_loops_sums
    by first [done | apply length_seqZ | by rewrite !length_fmap, length_seqZ].
  rewrite bind_local. host_step clock_advance. done.
Qed.

Lemma measure_with_advance s m handles cs reads :
  let h := (handles + host_next_handle s)%nat in
  measure_with e n k Nthreads (advance s m handles cs reads) =
  Done (measured e n k Nthreads (reads + host_clock_reads s))
       (advance s (measured_memory e n k h m) (8 + handles)
          (cs ++ measured_calls n k Nthreads h) (6 + reads)).
Proof.
  intros h. unfold measure_with, timeAddVectorsCPU.
  erewrite bind_Done;
    [|by apply fmap_Done, fmap_Done, timeAddVectorsCPU_locals_advance].
  cbv beta zeta. unfold declare_vectors.
  rewrite main_construct_shape.
  rewrite construct_loop by (done || apply length_uninitialised).
  rewrite bind_local.
  erewrite bind_Done;
    [|by apply (gpu_version1_advance e n k Nthreads);
         first [done | simpl; rewrite ?length_fmap, ?length_seqZ; lia] ].
  cbv beta iota zeta.
  erewrite bind_Done;
    [|by apply (gpu_version2_advance e n k Nthreads);
         first [done
               | simpl;
                 rewrite ?length_zip_with, ?length_fmap, ?length_seqZ; lia] ].
  cbv beta iota zeta. unfold mret, host_ret.
  unfold measured, measured_memory, measured_calls.
  rewrite <- !app_assoc. reflexivity.
Qed.

Lemma timeAddVectorsCPU_locals_Done s :
  timeAddVectorsCPU_locals e n k s =
  Done (seconds e (env_clock e (host_clock_reads s))
                  (env_clock e (S (host_clock_reads s))),
        {| vec_A := seqZ 0 n; vec_B := cpu_B n;
           vec_C := zip_with Int.add (seqZ 0 n) (cpu_B n) |})
       (advance s (host_device s) 0 [] 2).
Proof.
  pose proof (timeAddVectorsCPU_locals_advance s (host_device s) 0 [] 0) as H.
  revert H. generalize (advance_start s).
  generalize (advance s (host_device s) 0 [] 0).
  intros s0 -> H. exact H.
Qed.

End measurements.

(** ** The whole of [main] *)

Section main_facts.
Context (e : env).

Lemma measure_Done s :
  measure e s =
  Done (measured e 100000 1000 10 (host_clock_reads s))
       (advance s
          (measured_memory e 100000 1000 (host_next_handle s) (host_device s))
          8 (measured_calls 100000 1000 10 (host_next_handle s)) 6).
Proof.
  assert ((10 | 100000)) as Hdiv by (by exists 10000).
  assert (Int.in_range 100000 ∧ Int.in_range 10) as [Hn HT] by int_lia.
  pose proof (measure_with_advance e 100000 1000 10
                ltac:(lia) Hn ltac:(lia) HT Hdiv ltac:(lia)
                s (host_device s) 0 [] 0) as H.
  revert H. generalize (advance_start s).
  generalize (advance s (host_device s) 0 [] 0).
  intros s0 -> H. exact H.
Qed.

Lemma print_printed c s out :
  print c (printed s out) = Done tt (printed s (out ++ [c])).
Proof. unfold print, printed. simpl. by rewrite <- app_assoc. Qed.

Lemma printed_start s : printed s [] = s.
Proof. destruct s. unfold printed. simpl. by rewrite app_nil_r. Qed.

Lemma report_printed header CPUtime GPUtime s out :
  report header CPUtime GPUtime (printed s out) =
  Done tt (printed s (out ++ version_report header CPUtime GPUtime)).
Proof.
  unfold report, version_report, verdict.
  do 9 host_step print_printed.
  destruct (Time.gt _ _).
  - do 2 host_step print_printed. rewrite print_printed.
    by rewrite <- !app_assoc.
  - do 2 host_step print_printed. rewrite print_printed.
    by rewrite <- !app_assoc.
Qed.

Lemma select_device_two p ps d0 d1 ds s :
  env_platforms e = p :: ps → platform_devices p = d0 :: d1 :: ds →
  select_device e s = Done d1 s.
Proof.
  intros Hp Hd. unfold select_device, vector_at, local, mbind, host_bind.
  rewrite Hp. simpl. by rewrite Hd.
Qed.

Lemma select_device_no_platform s :
  env_platforms e = [] →
  select_device e s =
  Exit 1 (printed s [Text (" No platforms found. Check OpenCL installation!"
                             ++ nl)]).
Proof.
  intros Hp. unfold select_device, vector_at, local, mbind, host_bind.
  by rewrite Hp.
Qed.

Lemma select_device_no_device p ps s :
  env_platforms e = p :: ps → platform_devices p = [] →
  select_device e s =
  Exit 1 (printed s [Text (" No devices found. Check OpenCL installation!"
                             ++ nl)]).
Proof.
  intros Hp Hd. unfold select_device, vector_at, local, mbind, host_bind.
  rewrite Hp. simpl. by rewrite Hd.
Qed.

Lemma select_device_one p ps d0 s :
  env_platforms e = p :: ps → platform_devices p = [d0] →
  select_device e s = Undefined.
Proof.
  intros Hp Hd. unfold select_device, vector_at, local, mbind, host_bind.
  rewrite Hp. simpl. by rewrite Hd.
Qed.

Lemma build_program_success d s :
  env_build_status e = CL_SUCCESS → build_program e d s = Done tt s.
Proof. intros Hb. unfold build_program. by rewrite decide_False by auto. Qed.

Lemma build_program_failure d s :
  env_build_status e ≠ CL_SUCCESS →
  build_program e d s =
  Exit 1 (printed s [Text "Error building: "; Text (env_build_log e); Endl]).
Proof.
  intros Hb. unfold build_program, mbind, host_bind.
  rewrite decide_True by done. unfold print, exit, printed. simpl.
  by rewrite <- !app_assoc.
Qed.

Lemma report_Done header CPUtime GPUtime s :
  report header CPUtime GPUtime s =
  Done tt (printed s (version_report header CPUtime GPUtime)).
Proof.
  pose proof (report_printed header CPUtime GPUtime s []) as H.
  revert H. generalize (printed_start s). generalize (printed s []).
  intros s0 -> H. exact H.
Qed.

Lemma printed_printed s out1 out2 :
  printed (printed s out1) out2 = printed s (out1 ++ out2).
Proof. unfold printed. simpl. by rewrite <- app_assoc. Qed.

(** A run on an installation with two devices, on which the kernels
    build, reaches [return 0]. *)
Lemma main_Done p ps d0 d1 ds s :
  env_platforms e = p :: ps → platform_devices p = d0 :: d1 :: ds →
  env_build_status e = CL_SUCCESS →
  main e s =
  Done 0 (printed
            (advance s
               (measured_memory e 100000 1000 (host_next_handle s)
                  (host_device s))
               8 (measured_calls 100000 1000 10 (host_next_handle s)) 6)
            (reports e (host_clock_reads s))).
Proof.
  intros Hp Hd Hb. unfold main.
  erewrite bind_Done; [|by apply (select_device_two p ps d0 d1 ds)].
  erewrite bind_Done; [|by apply build_program_success].
  erewrite bind_Done; [|by apply measure_Done].
  erewrite bind_Done; [|by apply report_Done].
  erewrite bind_Done; [|by apply report_Done].
  by rewrite printed_printed.
Qed.

Lemma run_Done p ps d0 d1 ds :
  env_platforms e = p :: ps → platform_devices p = d0 :: d1 :: ds →
  env_build_status e = CL_SUCCESS →
  run e = Some (0, reports e 0).
Proof.
  intros Hp Hd Hb. unfold run.
  by rewrite (main_Done p ps d0 d1 ds).
Qed.

Lemma run_no_platform :
  env_platforms e = [] →
  run e = Some (1, [Text (" No platforms found. Check OpenCL installation!"
                            ++ nl)]).
Proof.
  intros Hp. unfold run, main, mbind, host_bind.
  by rewrite select_device_no_platform.
Qed.

Lemma run_no_device p ps :
  env_platforms e = p :: ps → platform_devices p = [] →
  run e = Some (1, [Text (" No devices found. Check OpenCL installation!"
                            ++ nl)]).
Proof.
  intros Hp Hd. unfold run, main, mbind, host_bind.
  by rewrite (select_device_no_device p ps).
Qed.

Lemma run_one_device p ps d0 :
  env_platforms e = p :: ps → platform_devices p = [d0] → run e = None.
Proof.
  intros Hp Hd. unfold run, main, mbind, host_bind.
  by rewrite (select_device_one p ps d0).
Qed.

Lemma run_build_failure p ps d0 d1 ds :
  env_platforms e = p :: ps → platform_devices p = d0 :: d1 :: ds →
  env_build_status e ≠ CL_SUCCESS →
  run e = Some (1, [Text "Error building: "; Text (env_build_log e); Endl]).
Proof.
  intros Hp Hd Hb. unfold run, main, mbind, host_bind.
  rewrite (select_device_two p ps d0 d1 ds) by done.
  by rewrite build_program_failure.
Qed.

End main_facts.

(** ** Comparison of times *)

Section time_facts.

Lemma compare_cont_swap p q :
  Pos.compare_cont Eq q p = CompOpp (Pos.compare_cont Eq p q).
Proof. symmetry. apply (Pos.compare_cont_antisym p q Eq). Qed.

Lemma SFcompare_antisym x y c :
  SFcompare x y = Some c → SFcompare y x = Some (CompOpp c).
Proof.
  destruct x as [sx|sx| |sx mx ex], y as [sy|sy| |sy my ey]; simpl;
    try done; try (destruct sx; intros [= <-]; done);
    try (destruct sy; intros [= <-]; done);
    try (destruct sx, sy; intros [= <-]; done).
  intros [= <-]. f_equal.
  destruct sx, sy; try done;
    rewrite (Z.compare_antisym ex ey);
    destruct (ex ?= ey); simpl; try done;
    rewrite (compare_cont_swap mx my); by rewrite ?CompOpp_involutive.
Qed.

(** [x <= y] excludes [x > y]. *)
Lemma le_not_gt x y : Time.le x y = true → Time.gt x y = false.
Proof.
  unfold Time.le, Time.gt, SFleb, SFltb.
  destruct (SFcompare x y) as [c|] eqn:E; [|done].
  rewrite (SFcompare_antisym x y c E). by destruct c.
Qed.

(** The ratio of two equal times of zero is not a number: it is neither
    above one, nor at most one. *)
Lemma ratio_of_zeros :
  let time_ratio := Time.div (Time.double_of_Z 0) (Time.double_of_Z 0) in
  Time.gt time_ratio Time.one = false ∧ Time.le time_ratio Time.one = false.
Proof. done. Qed.

End time_facts.

(** ** Counting calls *)

Section call_facts.
Implicit Types (p : cl_call → bool) (cs : list cl_call).

Lemma count_calls_cons p c cs :
  count_calls p (c :: cs) =
  ((if p c then 1 else 0) + count_calls p cs)%nat.
Proof.
  unfold count_calls. rewrite filter_cons.
  destruct (p c); by rewrite ?decide_True, ?decide_False by done.
Qed.

Lemma count_calls_app p cs1 cs2 :
  count_calls p (cs1 ++ cs2) = (count_calls p cs1 + count_calls p cs2)%nat.
Proof. unfold count_calls. by rewrite filter_app, length_app. Qed.

Lemma count_calls_repeated p cs (times : nat) :
  count_calls p (concat (replicate times cs)) = (times * count_calls p cs)%nat.
Proof.
  induction times as [|times IH]; simpl; [done|].
  by rewrite count_calls_app, IH.
Qed.

Lemma Forall_repeated (P : cl_call → Prop) cs (times : nat) :
  Forall P cs → Forall P (concat (replicate times cs)).
Proof.
  intros H. induction times as [|times IH]; simpl; [done|].
  by apply Forall_app.
Qed.

End call_facts.

(** ** The vectors of the program *)

Section vector_facts.
Context (n : Z) (Hn : 0 <= n) (Hnr : Int.in_range n).

Lemma fmap_seqZ_ext (f g : Z → Z) :
  (∀ i, 0 <= i < n → f i = g i) → f <$> seqZ 0 n = g <$> seqZ 0 n.
Proof.
  intros H. apply list_eq. intros i. rewrite !list_lookup_fmap.
  destruct (seqZ 0 n !! i) as [x|] eqn:E; simpl; [|done].
  apply lookup_seqZ in E as [-> Hi]. f_equal. apply H. lia.
Qed.

Lemma zip_with_seqZ (op : Z → Z → Z) (f : Z → Z) :
  zip_with op (seqZ 0 n) (f <$> seqZ 0 n) = (λ i, op i (f i)) <$> seqZ 0 n.
Proof. rewrite zip_with_fmap_r. apply zip_with_diag. Qed.

(** In [main] every sum is [n - 1], without overflow. *)
Lemma gpu_sums : zip_with Int.add (seqZ 0 n) (gpu_B n) = (λ _, n - 1) <$> seqZ 0 n.
Proof.
  unfold gpu_B. rewrite zip_with_seqZ. apply fmap_seqZ_ext. intros i Hi.
  rewrite (sub_id n i) by int_lia. rewrite sub_id by int_lia.
  rewrite add_id by int_lia. lia.
Qed.

Lemma gpu_sums_exact :
  zip_with Int.add (seqZ 0 n) (gpu_B n) = zip_with Z.add (seqZ 0 n) (gpu_B n).
Proof.
  unfold gpu_B. rewrite !zip_with_seqZ. apply fmap_seqZ_ext. intros i Hi.
  rewrite (sub_id n i) by int_lia. rewrite sub_id by int_lia.
  by rewrite add_id by int_lia.
Qed.

(** In [timeAddVectorsCPU] every sum is [n]. *)
Lemma cpu_sums : zip_with Int.add (seqZ 0 n) (cpu_B n) = (λ _, n) <$> seqZ 0 n.
Proof.
  unfold cpu_B. rewrite zip_with_seqZ. apply fmap_seqZ_ext. intros i Hi.
  rewrite sub_id by int_lia. rewrite add_id by int_lia. lia.
Qed.

Lemma lookup_const_seqZ (c : Z) (i : nat) :
  Z.of_nat i < n → ((λ _, c) <$> seqZ 0 n) !! i = Some c.
Proof. intros Hi. rewrite list_lookup_fmap. by rewrite lookup_seqZ_lt. Qed.

End vector_facts.


(** * The claims of the specification *)

(** ** C1, C2: the vectors computed on the device *)

(** C2. Both kernels, run by [main] with [n = 100000], [Nthreads = 10] and
    [k = 1000], leave in the output vector the sum of the two inputs at
    every index from [0] up to [n]: the array read back after [looped_add]
    (line 145) and the array read back after the runs of [add] (line 163)
    both hold [A[i] + B[i]] at every [i], the sums being those of the
    integers, without wrap-around. *)
Theorem gpu_output_is_elementwise_sum (e : env) (s : host_state) :
  ∃ l s',
    measure e s = Done l s' ∧
    main_n l = 100000 ∧ main_Nthreads l = 10 ∧ main_k l = 1000 ∧
    length (main_A l) = Z.to_nat (main_n l) ∧
    length (main_B l) = Z.to_nat (main_n l) ∧
    main_C1 l = zip_with Z.add (main_A l) (main_B l) ∧
    main_C l = zip_with Z.add (main_A l) (main_B l) ∧
    (∀ i x y, main_A l !! i = Some x → main_B l !! i = Some y →
              main_C1 l !! i = Some (x + y) ∧ main_C l !! i = Some (x + y)).
Proof.
  eexists _, _. split; [apply measure_Done|].
  assert (0 <= 100000 ∧ Int.in_range 100000) as [Hn Hr] by int_lia.
  unfold measured. cbn [main_n main_Nthreads main_k main_A main_B
                        main_C1 main_C].
  do 3 (split; [reflexivity|]).
  split; [apply length_seqZ|]. split; [apply length_gpu_B|].
  rewrite gpu_sums_exact by assumption.
  do 2 (split; [reflexivity|]).
  intros i x y Hx Hy. rewrite lookup_zip_with, Hx. simpl. rewrite Hy.
  split; reflexivity.
Qed.

(** C1, as the specification states it, fails: the array [C] that the
    device paths of [main] produce differs from the array [C] that
    [timeAddVectorsCPU] computes for the same length [n], already at index
    [0], which holds [99999] in the former and [100000] in the latter. *)
Lemma gpu_output_differs_from_timeAddVectorsCPU :
  ∃ l s t v s',
    measure sample_env initial_state = Done l s ∧
    timeAddVectorsCPU_locals sample_env (main_n l) (main_k l) initial_state
      = Done (t, v) s' ∧
    main_C1 l !! 0%nat = Some 99999 ∧
    main_C l !! 0%nat = Some 99999 ∧
    vec_C v !! 0%nat = Some 100000 ∧
    main_C1 l ≠ vec_C v ∧ main_C l ≠ vec_C v.
Proof.
  assert (0 <= 100000 ∧ Int.in_range 100000 ∧ 1 <= 1000) as (Hn & Hr & Hk)
    by int_lia.
  eexists _, _, _, _, _. split; [apply measure_Done|].
  unfold measured. cbn [main_n main_k main_C1 main_C].
  split; [apply timeAddVectorsCPU_locals_Done; assumption|].
  cbn [vec_C]. rewrite gpu_sums, cpu_sums by assumption.
  rewrite !lookup_const_seqZ by lia.
  do 3 (split; [reflexivity|]).
  split; intros Heq; apply (f_equal (λ l : list Z, l !! 0%nat)) in Heq;
    rewrite !lookup_const_seqZ in Heq by lia; discriminate Heq.
Qed.

(** C1, amended. Each device path of [main] produces, element for element,
    the array that the loop nest of [timeAddVectorsCPU] (lines 19-23)
    computes from the vectors [A] and [B] that [main] constructs. *)
Theorem gpu_output_matches_cpu_loops (e : env) (s : host_state) :
  ∃ l s' v,
    measure e s = Done l s' ∧
    for_loop 0 (main_n l) (main_construct (main_n l))
      (declare_vectors e (main_n l)) = Some v ∧
    vec_A v = main_A l ∧ vec_B v = main_B l ∧
    cpu_add_loops (main_n l) (main_k l) v =
      Some {| vec_A := main_A l; vec_B := main_B l; vec_C := main_C1 l |} ∧
    main_C l = main_C1 l.
Proof.
  assert (0 <= 100000 ∧ Int.in_range 100000 ∧ 1 <= 1000) as (Hn & Hr & Hk)
    by int_lia.
  eexists _, _, _. split; [apply measure_Done|].
  unfold measured. cbn [main_n main_k main_A main_B main_C1 main_C].
  split.
  { rewrite main_construct_shape. unfold declare_vectors.
    apply construct_loop;
      first [assumption | apply length_uninitialised]. }
  cbn [vec_A vec_B]. do 2 (split; [reflexivity|]).
  split; [|reflexivity].
  apply cpu_add_loops_sums; try assumption.
  - apply length_seqZ.
  - apply length_gpu_B.
  - rewrite length_fmap. apply length_seqZ.
Qed.

(** ** C3: the ranges of the work-items *)

(** C3, as the specification states it, fails: with [n = 10] and
    [Nthreads = 3] the ranges are [0..2], [3..5] and [6..8], and index [9]
    of the vector lies in none of them. *)
Lemma item_ranges_miss_an_index :
  1 <= 10 ∧ 1 <= 3 ∧ 0 <= 9 < 10 ∧
  ¬ ∃ ID, 0 <= ID < 3 ∧ in_item 10 3 ID 9 = true.
Proof.
  split; [lia|]. split; [lia|]. split; [lia|].
  intros (ID & HID & Hin).
  assert (ID = 0 ∨ ID = 1 ∨ ID = 2) as [->|[->| ->]] by lia;
    vm_compute in Hin; discriminate Hin.
Qed.

(** C3, amended. For every [n >= 1] and [Nthreads >= 1], work-item [ID] is
    given the indices from [(n / Nthreads) * ID] up to
    [(n / Nthreads) * (ID + 1)]; these ranges have [n / Nthreads] elements
    each, no two of them share an index, and together they hold the
    indices below [(n / Nthreads) * Nthreads], which are all the indices
    of the vector exactly when [Nthreads] divides [n]. *)
Theorem item_ranges_partition (n Nthreads : Z) :
  1 <= n → Int.in_range n → 1 <= Nthreads → Int.in_range Nthreads →
  (∀ ID, 0 <= ID < Nthreads →
     ∃ start stop,
       item_range n Nthreads ID = Some (start, stop) ∧
       start = n / Nthreads * ID ∧ stop = n / Nthreads * (ID + 1) ∧
       stop - start = n / Nthreads) ∧
  (∀ ID ID' i, 0 <= ID < Nthreads → 0 <= ID' < Nthreads →
     in_item n Nthreads ID i = true → in_item n Nthreads ID' i = true →
     ID = ID') ∧
  (∀ i, (∃ ID, 0 <= ID < Nthreads ∧ in_item n Nthreads ID i = true) ↔
        0 <= i < n / Nthreads * Nthreads) ∧
  (n / Nthreads * Nthreads = n ↔ (Nthreads | n)).
Proof.
  intros Hn Hnr HT HTr. split; [|split; [|split]].
  - intros ID HID. eexists _, _. split; [apply item_range_exact; first [assumption|lia]|].
    split; [reflexivity|]. split; [reflexivity|]. ring.
  - intros ID ID' i HID HID'.
    apply in_item_disjoint; first [assumption|lia].
  - intros i. apply in_item_union; first [assumption|lia].
  - apply ratio_exact; first [assumption|lia].
Qed.

(** The partition at the values of the program, [n = 100000] and
    [Nthreads = 10], where the ranges hold every index of the vector. *)
Lemma item_ranges_partition_witness :
  (1 <= 100000 ∧ Int.in_range 100000 ∧ 1 <= 10 ∧ Int.in_range 10) ∧
  (∀ i, (∃ ID, 0 <= ID < 10 ∧ in_item 100000 10 ID i = true) ↔
        0 <= i < 100000 / 10 * 10) ∧
  (100000 / 10 * 10 = 100000 ↔ (10 | 100000)).
Proof.
  assert (1 <= 100000 ∧ Int.in_range 100000 ∧ 1 <= 10 ∧ Int.in_range 10)
    as (H1 & H2 & H3 & H4)
    by (unfold Int.in_range, Int.min_int, Int.max_int; lia).
  split; [by split_and!|].
  destruct (item_ranges_partition 100000 10 H1 H2 H3 H4) as (_ & _ & H & H').
  split; [exact H|exact H'].
Defined.

(** ** C7: [looped_add] against [add] *)

(** C7. With [k >= 1] iterations, a launch of [looped_add] leaves device
    memory as the same launch of [add] does, whatever the input vectors,
    the length [n] and the number of work-items, and is undefined exactly
    when that launch of [add] is: repeating [v3[j] = v1[j] + v2[j]] changes
    nothing after the first pass. The output buffer [v3] is a buffer of
    its own, and the constants are [(n, k)]. *)
Theorem looped_add_same_as_add (a : kernel_args) (m : memory)
    (n k gsize : Z) (schedule : list Z) :
  separate a → m !! arg_constants a = Some [n; k] → 1 <= k →
  run_items looped_add schedule gsize a m = run_items add schedule gsize a m.
Proof.
  intros Hsep Hc Hk. apply (looped_add_launch a Hsep schedule gsize m k).
  - by rewrite (load_lookup m _ [n; k]).
  - done.
Qed.

(** Two work-items on vectors of four elements, three iterations. *)
Lemma looped_add_same_as_add_witness :
  let a := {| arg_v1 := 0; arg_v2 := 1; arg_v3 := 2; arg_constants := 3 |}%nat in
  let m : memory :=
    <[0%nat := [1; 2; 3; 4]]> (<[1%nat := [10; 20; 30; 40]]>
      (<[2%nat := [0; 0; 0; 0]]> (<[3%nat := [4; 3]]> ∅))) in
  (separate a ∧ m !! arg_constants a = Some [4; 3] ∧ 1 <= 3) ∧
  run_items looped_add [0; 1] 2 a m = run_items add [0; 1] 2 a m.
Proof.
  intros a m.
  assert (separate a) as H1 by (unfold separate; simpl; lia).
  assert (m !! arg_constants a = Some [4; 3]) as H2 by reflexivity.
  assert (1 <= 3) as H3 by lia.
  split; [by split_and!|].
  exact (looped_add_same_as_add a m 4 3 2 [0; 1] H1 H2 H3).
Defined.

(** ** C4, C6: the device and the exit code *)

(** C6. The only check on the list of devices is that it is not empty, and
    the next statement takes its element of index [1]. On an installation
    whose first platform has one device the check passes and the index is
    outside the list: the choice of the device is undefined. *)
Theorem one_device_passes_the_guard :
  ∃ p,
    env_platforms one_device_env !! 0%nat = Some p ∧
    length (platform_devices p) ≠ 0%nat ∧
    platform_devices p !! 1%nat = None ∧
    select_device one_device_env initial_state = Undefined.
Proof.
  eexists. split; [reflexivity|]. split; [simpl; lia|].
  split; [reflexivity|].
  eapply select_device_one; reflexivity.
Qed.

(** C4. On an installation with a platform, one device on it, and kernels
    that build, none of the three failures occurs, and the run still does
    not reach [return 0]: the model gives it no exit code. *)
Theorem one_device_run_has_no_exit_code :
  ∃ p,
    env_platforms one_device_env = [p] ∧
    platform_devices p ≠ [] ∧
    env_build_status one_device_env = CL_SUCCESS ∧
    run one_device_env = None.
Proof.
  eexists. split; [reflexivity|]. split; [done|]. split; [reflexivity|].
  eapply run_one_device; reflexivity.
Qed.

(** What holds of the exit code on the other installations: [1] with the
    message of the failure and nothing else when there is no platform, no
    device, or the build fails; [0] when the first platform has two
    devices or more and the build succeeds. *)
Theorem exit_codes (e : env) :
  (env_platforms e = [] →
   run e = Some (1, [Text (" No platforms found. Check OpenCL installation!"
                             ++ nl)])) ∧
  (∀ p ps, env_platforms e = p :: ps → platform_devices p = [] →
   run e = Some (1, [Text (" No devices found. Check OpenCL installation!"
                             ++ nl)])) ∧
  (∀ p ps d0 d1 ds,
     env_platforms e = p :: ps → platform_devices p = d0 :: d1 :: ds →
     env_build_status e ≠ CL_SUCCESS →
     run e = Some (1, [Text "Error building: "; Text (env_build_log e);
                       Endl])) ∧
  (∀ p ps d0 d1 ds,
     env_platforms e = p :: ps → platform_devices p = d0 :: d1 :: ds →
     env_build_status e = CL_SUCCESS →
     ∃ out, run e = Some (0, out)).
Proof.
  split; [apply run_no_platform|]. split; [apply run_no_device|].
  split; [apply run_build_failure|].
  intros p ps d0 d1 ds Hp Hd Hb. eexists.
  by apply (run_Done e p ps d0 d1 ds).
Qed.

(** ** C5, C9: the calls of the two device paths *)

Section calls_of_a_run.
Context (n k Nthreads : Z) (h : handle).

Lemma version1_counts :
  count_calls is_create (version1_calls n Nthreads h) = 4%nat ∧
  count_calls is_write (version1_calls n Nthreads h) = 3%nat ∧
  count_calls (is_launch Kernel_looped_add) (version1_calls n Nthreads h)
    = 1%nat ∧
  count_calls (is_launch Kernel_add) (version1_calls n Nthreads h) = 0%nat.
Proof. done. Qed.

Lemma version2_counts :
  count_calls is_create (version2_calls n k Nthreads h) = 4%nat ∧
  count_calls is_write (version2_calls n k Nthreads h)
    = (3 * Z.to_nat k)%nat ∧
  count_calls (is_launch Kernel_add) (version2_calls n k Nthreads h)
    = Z.to_nat k ∧
  count_calls (is_launch Kernel_looped_add) (version2_calls n k Nthreads h)
    = 0%nat.
Proof.
  unfold version2_calls, iteration_calls.
  rewrite !count_calls_app, !count_calls_repeated, !count_calls_cons.
  cbn [is_create is_write is_launch]. unfold count_calls. simpl. lia.
Qed.

Lemma version1_blocking :
  Forall blocking_where_flagged (version1_calls n Nthreads h).
Proof. unfold version1_calls. repeat constructor. Qed.

Lemma version2_blocking :
  Forall blocking_where_flagged (version2_calls n k Nthreads h).
Proof.
  unfold version2_calls. rewrite !Forall_app. split_and!.
  - repeat constructor.
  - apply Forall_repeated. unfold iteration_calls. repeat constructor.
  - repeat constructor.
Qed.

End calls_of_a_run.

(** C5, as the specification states it, fails: the run has [k = 1000]
    iterations of the loop of the second path, each with its launch of
    [add], and [8] allocations of buffers in all, so that not every
    iteration allocates. *)
Lemma second_path_does_not_allocate_in_every_iteration :
  ∃ l s,
    measure sample_env initial_state = Done l s ∧
    main_k l = 1000 ∧
    count_calls (is_launch Kernel_add) (host_calls s) = 1000%nat ∧
    count_calls is_create (host_calls s) = 8%nat ∧
    ¬ (count_calls (is_launch Kernel_add) (host_calls s)
       ≤ count_calls is_create (host_calls s))%nat.
Proof.
  eexists _, _. split; [apply measure_Done|].
  split; [reflexivity|].
  unfold advance. cbn [host_calls initial_state host_next_handle].
  rewrite app_nil_l. unfold measured_calls.
  rewrite !count_calls_app.
  destruct (version1_counts 100000 10 0%nat) as (-> & _ & _ & ->).
  destruct (version2_counts 100000 1000 10 (4 + 0)%nat) as (-> & _ & -> & _).
  split; [lia|]. split; [lia|]. lia.
Qed.

(** C5, amended. The first path creates its four buffers, writes [A], [B]
    and the constants once, launches [looped_add] once and reads [C]. The
    second path, too, creates its four buffers once, before its loop; each
    of its [k] iterations writes [A], [B] and the constants again and
    launches [add]; [C] is read once after the loop. *)
Theorem calls_of_the_two_paths (e : env) (s : host_state) :
  ∃ l s',
    measure e s = Done l s' ∧
    let h := host_next_handle s in
    let first := version1_calls (main_n l) (main_Nthreads l) h in
    let second :=
      version2_calls (main_n l) (main_k l) (main_Nthreads l) (4 + h)%nat in
    host_calls s' = host_calls s ++ first ++ second ∧
    count_calls is_create first = 4%nat ∧
    count_calls is_write first = 3%nat ∧
    count_calls (is_launch Kernel_looped_add) first = 1%nat ∧
    count_calls (is_launch Kernel_add) first = 0%nat ∧
    count_calls is_create second = 4%nat ∧
    count_calls is_write second = (3 * Z.to_nat (main_k l))%nat ∧
    count_calls (is_launch Kernel_add) second = Z.to_nat (main_k l) ∧
    count_calls (is_launch Kernel_looped_add) second = 0%nat.
Proof.
  eexists _, _. split; [apply measure_Done|].
  unfold measured. cbn [main_n main_k main_Nthreads]. cbv zeta.
  split; [reflexivity|].
  destruct (version1_counts 100000 10 (host_next_handle s))
    as (H1 & H2 & H3 & H4).
  destruct (version2_counts 100000 1000 10 (4 + host_next_handle s)%nat)
    as (H5 & H6 & H7 & H8).
  split; [exact H1|]. split; [exact H2|]. split; [exact H3|].
  split; [exact H4|]. split; [exact H5|]. split; [exact H6|].
  split; [exact H7|exact H8].
Qed.

(** C9, as the specification states it, fails: the launch of a kernel is
    a call on the queue that is given no blocking flag. *)
Lemma kernel_launch_has_no_blocking_flag :
  ∃ l s c,
    measure sample_env initial_state = Done l s ∧
    c ∈ host_calls s ∧ queue_operation c = true ∧
    blocking_flag c ≠ Some true.
Proof.
  eexists _, _,
    (EnqueueNDRangeKernel Kernel_looped_add 10
       {| arg_v1 := 0; arg_v2 := 1; arg_v3 := 2; arg_constants := 3 |}%nat).
  split; [apply measure_Done|].
  split; [|split; [reflexivity|discriminate]].
  unfold advance. cbn [host_calls initial_state host_next_handle].
  rewrite app_nil_l. unfold measured_calls.
  apply elem_of_app. left. unfold version1_calls.
  do 7 apply list_elem_of_further. apply list_elem_of_here.
Qed.

(** C9, amended. Every write of a buffer and every read of a buffer that
    the host issues passes the blocking flag [CL_TRUE]; the launches of
    the kernels go through the kernel functor, which is passed the four
    buffers and no blocking flag. *)
Theorem transfers_are_blocking (e : env) (s : host_state) :
  ∃ l s' issued,
    measure e s = Done l s' ∧
    host_calls s' = host_calls s ++ issued ∧
    Forall blocking_where_flagged issued.
Proof.
  eexists _, _, _. split; [apply measure_Done|].
  split; [reflexivity|].
  unfold measured_calls. apply Forall_app. split.
  - apply version1_blocking.
  - apply version2_blocking.
Qed.

(** ** C8: the reports *)

(** C8. On an installation where the program reaches its end, it prints
    two reports and returns [0]. Each report gives the CPU time, the GPU
    time of its version, and their ratio [CPUtime / GPUtime] followed by
    [" times faster!"] when the ratio is above one and by
    [" times slower :("] otherwise, which covers every ratio that is at
    most one. *)
Theorem reports_of_both_versions (e : env) (p : platform)
    (ps : list platform) (d0 d1 : device) (ds : list device) :
  env_platforms e = p :: ps → platform_devices p = d0 :: d1 :: ds →
  env_build_status e = CL_SUCCESS →
  ∃ l s',
    measure e initial_state = Done l s' ∧
    let CPUtime := main_CPUtime l in
    let ratio1 := Time.div CPUtime (main_GPUtime1 l) in
    let ratio2 := Time.div CPUtime (main_GPUtime2 l) in
    run e =
      Some (0,
            [ Text "VERSION 1 -----------"; Endl;
              Text "CPU time: "; Float CPUtime; Endl;
              Text "GPU time: "; Double (main_GPUtime1 l); Endl;
              Text "GPU is "; Double ratio1; Text (verdict ratio1); Endl;
              Text (nl ++ "VERSION 2 -----------"); Endl;
              Text "CPU time: "; Float CPUtime; Endl;
              Text "GPU time: "; Double (main_GPUtime2 l); Endl;
              Text "GPU is "; Double ratio2; Text (verdict ratio2); Endl ]) ∧
    (∀ time_ratio, Time.gt time_ratio Time.one = true →
                   verdict time_ratio = " times faster!") ∧
    (∀ time_ratio, Time.gt time_ratio Time.one = false →
                   verdict time_ratio = " times slower :(") ∧
    (∀ time_ratio, Time.le time_ratio Time.one = true →
                   verdict time_ratio = " times slower :(").
Proof.
  intros Hp Hd Hb. eexists _, _. split; [apply measure_Done|].
  cbv zeta. split; [exact (run_Done e p ps d0 d1 ds Hp Hd Hb)|].
  unfold verdict. split; [|split].
  - by intros r ->.
  - by intros r ->.
  - intros r Hle. by rewrite (le_not_gt r Time.one Hle).
Qed.

(** The reports on an installation with a CPU and a GPU. *)
Lemma reports_of_both_versions_witness :
  (env_platforms sample_env = [ {| platform_devices := [0; 1]%nat |} ] ∧
   platform_devices {| platform_devices := [0; 1]%nat |} = [0; 1]%nat ∧
   env_build_status sample_env = CL_SUCCESS) ∧
  ∃ l s out, measure sample_env initial_state = Done l s ∧
             run sample_env = Some (0, out).
Proof.
  split; [split_and!; reflexivity|].
  destruct (reports_of_both_versions sample_env
              {| platform_devices := [0; 1]%nat |} [] 0%nat 1%nat []
              eq_refl eq_refl eq_refl) as (l & s & Hm & Hr & _).
  exists l, s. eexists. split; [exact Hm|exact Hr].
Defined.

(** ** C10: the constants *)

(** C10. [main] holds [n = 100000], [k = 1000] and [Nthreads = 10]; its
    array of constants is [n] then [k], and this is what the constants
    buffer of either path holds on the device. A kernel whose constants
    buffer holds [n] then [k] takes the length of the vectors from
    element [0], and [looped_add] takes its number of iterations from
    element [1]. *)
Theorem constants_are_n_then_k (e : env) (s : host_state)
    (a : kernel_args) (m : memory) (n k gid gsize : Z) :
  m !! arg_constants a = Some [n; k] →
  (∃ l s',
     measure e s = Done l s' ∧
     main_n l = 100000 ∧ main_k l = 1000 ∧ main_Nthreads l = 10 ∧
     main_constants l = [main_n l; main_k l] ∧
     host_device s' !! (3 + host_next_handle s)%nat
       = Some (main_constants l) ∧
     host_device s' !! (7 + host_next_handle s)%nat
       = Some (main_constants l)) ∧
  add gid gsize a m =
    ('(start, stop) ← item_range n (Int.wrap gsize) (Int.wrap gid);
     for_loop start stop (add_element a) m) ∧
  looped_add gid gsize a m =
    ('(start, stop) ← item_range n (Int.wrap gsize) (Int.wrap gid);
     for_loop 0 k (λ i, for_loop start stop (add_element a)) m).
Proof.
  intros Hc. split; [|split].
  - eexists _, _. split; [apply measure_Done|].
    unfold measured. cbn [main_n main_k main_Nthreads main_constants].
    do 4 (split; [reflexivity|]).
    unfold advance. cbn [host_device].
    unfold measured_memory, computed, created.
    split.
    + repeat (rewrite lookup_insert_ne by lia).
      by rewrite lookup_insert_eq.
    + replace (7 + host_next_handle s)%nat
        with (3 + (4 + host_next_handle s))%nat by lia.
      repeat (rewrite lookup_insert_ne by lia).
      by rewrite lookup_insert_eq.
  - unfold add. by rewrite (load_lookup m _ [n; k]).
  - unfold looped_add.
    rewrite (load_lookup m _ [n; k]) by done.
    by rewrite (load_lookup m _ [n; k]).
Qed.

(** Work-item [1] of two, on a constants buffer that holds [4] then [3]. *)
Lemma constants_are_n_then_k_witness :
  let a := {| arg_v1 := 0; arg_v2 := 1; arg_v3 := 2; arg_constants := 3 |}%nat in
  let m : memory :=
    <[0%nat := [1; 2; 3; 4]]> (<[1%nat := [10; 20; 30; 40]]>
      (<[2%nat := [0; 0; 0; 0]]> (<[3%nat := [4; 3]]> ∅))) in
  m !! arg_constants a = Some [4; 3] ∧
  looped_add 1 2 a m =
    ('(start, stop) ← item_range 4 (Int.wrap 2) (Int.wrap 1);
     for_loop 0 3 (λ i, for_loop start stop (add_element a)) m).
Proof.
  intros a m.
  assert (m !! arg_constants a = Some [4; 3]) as H by reflexivity.
  split; [exact H|].
  exact (proj2 (proj2 (constants_are_n_then_k sample_env initial_state
                         a m 4 3 1 2 H))).
Defined.

(** * Further properties of the code *)

(** ** What the kernels write, and what they do not (lines 60-92) *)

Section kernel_frame.
Context (a : kernel_args).

Lemma only_output_refl (m : memory) : only_output a m m.
Proof. by split. Qed.

Lemma only_output_trans (m1 m2 m3 : memory) :
  only_output a m1 m2 → only_output a m2 m3 → only_output a m1 m3.
Proof.
  intros [H1 L1] [H2 L2]. split.
  - intros p Hp. by rewrite H2, H1.
  - by rewrite L2, L1.
Qed.

Lemma add_element_only_output j (m m' : memory) :
  add_element a j m = Some m' → only_output a m m'.
Proof.
  intros H. split; [intros p Hp; by apply (add_element_frame a j)|].
  destruct (add_element_inv a j m m' H) as (x & y & l3 & _ & _ & E & _ & ->).
  rewrite lookup_insert_eq, E. simpl. by rewrite length_insert.
Qed.

(** A loop, or a list of runs, of steps that keep the relation keeps it. *)
Lemma each_only_output (body : Z → memory → option memory) js (m m' : memory) :
  (∀ j m1 m2, body j m1 = Some m2 → only_output a m1 m2) →
  each body js m = Some m' → only_output a m m'.
Proof.
  intros Hb. revert m. induction js as [|j js IH]; intros m H; simpl in H.
  - injection H as <-. apply only_output_refl.
  - destruct (body j m) as [m1|] eqn:E; simpl in H; [|done].
    apply (only_output_trans m m1 m'); [by apply (Hb j)|by apply IH].
Qed.

Lemma for_loop_only_output (body : Z → memory → option memory)
    start stop (m m' : memory) :
  (∀ j m1 m2, body j m1 = Some m2 → only_output a m1 m2) →
  for_loop start stop body m = Some m' → only_output a m m'.
Proof.
  intros Hb. unfold for_loop. rewrite for_iter_each.
  by apply each_only_output.
Qed.

Lemma add_only_output gid gsize (m m' : memory) :
  add gid gsize a m = Some m' → only_output a m m'.
Proof.
  unfold add.
  destruct (load m (arg_constants a) 0) as [n|]; simpl; [|done].
  destruct (item_range _ _ _) as [[start stop]|]; simpl; [|done].
  apply for_loop_only_output. apply add_element_only_output.
Qed.

Lemma looped_add_only_output gid gsize (m m' : memory) :
  looped_add gid gsize a m = Some m' → only_output a m m'.
Proof.
  unfold looped_add.
  destruct (load m (arg_constants a) 0) as [n|]; simpl; [|done].
  destruct (load m (arg_constants a) 1) as [k|]; simpl; [|done].
  destruct (item_range _ _ _) as [[start stop]|]; simpl; [|done].
  apply for_loop_only_output. intros _ m1 m2.
  apply for_loop_only_output. apply add_element_only_output.
Qed.

End kernel_frame.

(** X1. A launch of either kernel, over any range and in any order of the
    work-items, on any device memory, changes no buffer but the one passed
    as [v3], and leaves [v3] with the length it had: the inputs and the
    constants are never written. *)
Theorem launch_writes_only_output (kern : kernel_name) (schedule : list Z)
    (gsize : Z) (a : kernel_args) (m m' : memory) :
  run_items (kernel_of kern) schedule gsize a m = Some m' →
  (∀ p, p ≠ arg_v3 a → m' !! p = m !! p) ∧
  length <$> m' !! arg_v3 a = length <$> m !! arg_v3 a.
Proof.
  intros H.
  apply (each_only_output a (λ gid, kernel_of kern gid gsize a) schedule m m');
    [|exact H].
  intros gid m1 m2. destruct kern; simpl.
  - apply looped_add_only_output.
  - apply add_only_output.
Qed.

(** Two work-items of [add] on vectors of four elements. *)
Lemma launch_writes_only_output_witness :
  let m := sample_memory 4 [4; 1] in
  let m' := <[2%nat := [11; 22; 33; 44]]> m in
  run_items (kernel_of Kernel_add) [0; 1] 2 sample_args m = Some m' ∧
  (∀ p, p ≠ arg_v3 sample_args → m' !! p = m !! p) ∧
  length <$> m' !! arg_v3 sample_args = length <$> m !! arg_v3 sample_args.
Proof.
  intros m m'.
  assert (run_items (kernel_of Kernel_add) [0; 1] 2 sample_args m = Some m')
    as H by (vm_compute; reflexivity).
  split; [exact H|].
  exact (launch_writes_only_output Kernel_add [0; 1] 2 sample_args m m' H).
Defined.

Section launch_results.
Context (a : kernel_args).

Lemma sums_where_prefix (l1 l2 l3 : list Z) (n Nthreads : Z) :
  (assigned n Nthreads ≤ length l1)%nat →
  (assigned n Nthreads ≤ length l2)%nat →
  (assigned n Nthreads ≤ length l3)%nat →
  sums_where (λ i, bool_decide (0 <= i < n / Nthreads * Nthreads)) l1 l2 l3
  = launch_output n Nthreads l1 l2 l3.
Proof.
  unfold launch_output, assigned. intros H1 H2 H3.
  set (d := Z.to_nat (n / Nthreads * Nthreads)) in *.
  apply list_eq. intros i. unfold sums_where. rewrite lookup_set_where.
  assert (length (zip_with Int.add (take d l1) (take d l2)) = d) as Hlen
    by (rewrite length_zip_with, !length_take; lia).
  destruct (decide (i < d)%nat) as [Hi|Hi].
  - rewrite lookup_app_l by lia.
    rewrite lookup_zip_with, !lookup_take_lt by done.
    destruct (lookup_lt_is_Some_2 l1 i) as [x Hx]; [lia|].
    destruct (lookup_lt_is_Some_2 l2 i) as [y Hy]; [lia|].
    destruct (lookup_lt_is_Some_2 l3 i) as [z Hz]; [lia|].
    rewrite Hx, Hy, Hz. simpl. rewrite bool_decide_eq_true_2 by lia.
    unfold sum_at. rewrite Nat2Z.id.
    by rewrite (list_lookup_total_correct _ _ _ Hx),
               (list_lookup_total_correct _ _ _ Hy).
  - rewrite lookup_app_r by lia. rewrite Hlen, lookup_drop.
    replace (d + (i - d))%nat with i by lia.
    destruct (l3 !! i) as [z|]; simpl; [|done].
    by rewrite bool_decide_eq_false_2 by lia.
Qed.

Lemma length_zip_take (l1 l2 : list Z) (d : nat) :
  (d ≤ length l1)%nat → (d ≤ length l2)%nat →
  length (zip_with Int.add (take d l1) (take d l2)) = d.
Proof. intros H1 H2. rewrite length_zip_with, !length_take. lia. Qed.

Lemma length_launch_output (l1 l2 l3 : list Z) (n Nthreads : Z) :
  (assigned n Nthreads ≤ length l1)%nat →
  (assigned n Nthreads ≤ length l2)%nat →
  (assigned n Nthreads ≤ length l3)%nat →
  length (launch_output n Nthreads l1 l2 l3) = length l3.
Proof.
  intros H1 H2 H3. unfold launch_output.
  rewrite length_app, length_zip_take, length_drop by done. lia.
Qed.

Lemma lookup_launch_output_lt (l1 l2 l3 : list Z) (n Nthreads : Z) i x y :
  (i < assigned n Nthreads)%nat → l1 !! i = Some x → l2 !! i = Some y →
  launch_output n Nthreads l1 l2 l3 !! i = Some (Int.add x y).
Proof.
  intros Hi Hx Hy. unfold launch_output.
  pose proof (lookup_lt_Some _ _ _ Hx). pose proof (lookup_lt_Some _ _ _ Hy).
  rewrite lookup_app_l by (rewrite length_zip_with, !length_take; lia).
  rewrite lookup_zip_with, !lookup_take_lt by done. by rewrite Hx, Hy.
Qed.

Lemma lookup_launch_output_ge (l1 l2 l3 : list Z) (n Nthreads : Z) i :
  (assigned n Nthreads ≤ length l1)%nat →
  (assigned n Nthreads ≤ length l2)%nat →
  (assigned n Nthreads ≤ i)%nat →
  launch_output n Nthreads l1 l2 l3 !! i = l3 !! i.
Proof.
  intros H1 H2 Hi. unfold launch_output.
  rewrite lookup_app_r by (rewrite length_zip_take; lia).
  rewrite length_zip_take, lookup_drop by done. f_equal. lia.
Qed.

Lemma assigned_le (n Nthreads : Z) :
  0 <= n → 0 < Nthreads → (assigned n Nthreads ≤ Z.to_nat n)%nat.
Proof.
  intros Hn HT. unfold assigned.
  destruct (ratio_bounds n Nthreads) as [_ H]; [done..|]. lia.
Qed.

Lemma item_range_no_elements (n Nthreads ID : Z) :
  0 <= n < Nthreads → Int.in_range Nthreads →
  item_range n Nthreads ID = Some (0, 0).
Proof.
  intros Hn HT. unfold item_range, Int.div.
  rewrite decide_False by lia. simpl.
  rewrite Z.quot_small by lia. unfold Int.mul.
  rewrite !Z.mul_0_l. by rewrite wrap_id by int_lia.
Qed.

Lemma for_loop_no_iterations {S} (start stop : Z)
    (body : Z → S → option S) (s : S) :
  stop <= start → for_loop start stop body s = Some s.
Proof.
  intros H. unfold for_loop. by replace (Z.to_nat (stop - start)) with 0%nat by lia.
Qed.

Lemma for_iter_nothing {S} (count : nat) (j : Z) (s : S) :
  for_iter count j (λ _ s', Some s') s = Some s.
Proof. revert j. induction count as [|count IH]; intros j; simpl; [done|apply IH]. Qed.

Lemma each_nothing {S} (body : Z → S → option S) (js : list Z) (s : S) :
  (∀ j, j ∈ js → body j s = Some s) → each body js s = Some s.
Proof.
  induction js as [|j js IH]; intros H; simpl; [done|].
  rewrite H by (by left). simpl. apply IH. intros j' Hj'. apply H. by right.
Qed.

End launch_results.

(** What a launch over all the work-items leaves, for any [n] and
    [Nthreads]. *)
Lemma launch_whole_ranges (kern : kernel_name) (a : kernel_args)
    (m : memory) (l1 l2 l3 cs : list Z) (n k Nthreads : Z)
    (schedule : list Z) :
  separate a →
  m !! arg_v1 a = Some l1 → m !! arg_v2 a = Some l2 →
  m !! arg_v3 a = Some l3 → m !! arg_constants a = Some cs →
  cs !! 0%nat = Some n →
  (kern = Kernel_looped_add → cs !! 1%nat = Some k ∧ 1 <= k) →
  0 <= n → Int.in_range n → 1 <= Nthreads → Int.in_range Nthreads →
  (assigned n Nthreads ≤ length l1)%nat →
  (assigned n Nthreads ≤ length l2)%nat →
  (assigned n Nthreads ≤ length l3)%nat →
  (∀ gid, gid ∈ schedule ↔ 0 <= gid < Nthreads) →
  run_items (kernel_of kern) schedule Nthreads a m =
  Some (<[arg_v3 a := launch_output n Nthreads l1 l2 l3]> m).
Proof.
  intros Hsep Hv1 Hv2 Hv3 Hc Hcn Hck Hn Hnr HT HTr H1 H2 H3 Hs.
  assert (run_items add schedule Nthreads a m =
          Some (<[arg_v3 a := launch_output n Nthreads l1 l2 l3]> m)) as Hadd.
  { rewrite (launch_add a Hsep m l1 l2 Hv1 Hv2 l3 cs n schedule Nthreads
               Hv3 Hc Hcn).
    - do 2 f_equal. rewrite <- sums_where_prefix by done.
      apply sums_where_ext. intros i _.
      apply covered_complete; first [assumption|lia].
    - apply Forall_forall. intros gid Hgid%Hs.
      apply fits_exact; first [assumption|unfold assigned in *; lia].
    - apply Forall_forall. intros gid Hgid%Hs.
      apply fits_exact; first [assumption|unfold assigned in *; lia].
    - apply Forall_forall. intros gid Hgid%Hs.
      apply fits_exact; first [assumption|unfold assigned in *; lia]. }
  destruct kern; simpl; [|exact Hadd].
  destruct Hck as [Hck Hk]; [done|].
  rewrite (looped_add_launch a Hsep schedule Nthreads m k); [exact Hadd| |done].
  rewrite (load_lookup m _ cs) by done. exact Hck.
Qed.

(** X2. A launch of either kernel with [Nthreads] work-items on vectors of
    [n] elements, for any [n >= 0] and any [Nthreads >= 1] (and [k >= 1]
    iterations for [looped_add]), leaves the sum [v1[i] + v2[i]] in each of
    the first [(n / Nthreads) * Nthreads] elements of the output buffer and
    leaves the other elements of that buffer as they were: the
    [n mod Nthreads] last elements of the vectors are not added. The
    buffers may be longer than they need to be, and the work-items may run
    in any order. *)
Theorem launch_leaves_the_remainder (kern : kernel_name) (a : kernel_args)
    (m : memory) (l1 l2 l3 cs : list Z) (n k Nthreads : Z)
    (schedule : list Z) :
  separate a →
  m !! arg_v1 a = Some l1 → m !! arg_v2 a = Some l2 →
  m !! arg_v3 a = Some l3 → m !! arg_constants a = Some cs →
  cs !! 0%nat = Some n →
  (kern = Kernel_looped_add → cs !! 1%nat = Some k ∧ 1 <= k) →
  0 <= n → Int.in_range n → 1 <= Nthreads → Int.in_range Nthreads →
  (assigned n Nthreads ≤ length l1)%nat →
  (assigned n Nthreads ≤ length l2)%nat →
  (assigned n Nthreads ≤ length l3)%nat →
  (∀ gid, gid ∈ schedule ↔ 0 <= gid < Nthreads) →
  ∃ output,
    run_items (kernel_of kern) schedule Nthreads a m =
      Some (<[arg_v3 a := output]> m) ∧
    length output = length l3 ∧
    (∀ i x y, (i < assigned n Nthreads)%nat →
       l1 !! i = Some x → l2 !! i = Some y →
       output !! i = Some (Int.add x y)) ∧
    (∀ i, (assigned n Nthreads ≤ i)%nat → output !! i = l3 !! i).
Proof.
  intros Hsep Hv1 Hv2 Hv3 Hc Hcn Hck Hn Hnr HT HTr H1 H2 H3 Hs.
  exists (launch_output n Nthreads l1 l2 l3).
  split; [by apply (launch_whole_ranges kern a m l1 l2 l3 cs n k)|].
  split; [by apply length_launch_output|]. split.
  - intros i x y. apply lookup_launch_output_lt.
  - intros i. by apply lookup_launch_output_ge.
Qed.

(** Vectors of ten elements and three work-items, run in the order 2, 0,
    1: the last element of the output keeps the [0] it held. *)
Lemma launch_leaves_the_remainder_witness :
  ∃ output,
    run_items (kernel_of Kernel_looped_add) [2; 0; 1] 3 sample_args
      (sample_memory 10 [10; 5]) =
    Some (<[2%nat := output]> (sample_memory 10 [10; 5])) ∧
    output !! 8%nat = Some 99 ∧ output !! 9%nat = Some 0.
Proof.
  destruct (launch_leaves_the_remainder Kernel_looped_add sample_args
              (sample_memory 10 [10; 5])
              ((λ i, i + 1) <$> seqZ 0 10) ((λ i, 10 * (i + 1)) <$> seqZ 0 10)
              ((λ _, 0) <$> seqZ 0 10) [10; 5] 10 5 3 [2; 0; 1])
    as (output & Hrun & _ & Hlt & Hge).
  - unfold separate; simpl; lia.
  - reflexivity.
  - reflexivity.
  - reflexivity.
  - reflexivity.
  - reflexivity.
  - intros _. split; [reflexivity|lia].
  - lia.
  - unfold Int.in_range, Int.min_int, Int.max_int; lia.
  - lia.
  - unfold Int.in_range, Int.min_int, Int.max_int; lia.
  - vm_compute; lia.
  - vm_compute; lia.
  - vm_compute; lia.
  - intros gid. rewrite !elem_of_cons, elem_of_nil. lia.
  - exists output. split; [exact Hrun|]. split.
    + apply (Hlt 8%nat 9 90); [vm_compute; lia|reflexivity|reflexivity].
    + rewrite (Hge 9%nat) by (vm_compute; lia). reflexivity.
Defined.

(** X3. When the vectors have fewer elements than the launch has
    work-items, [n / Nthreads] is [0], every work-item has an empty range,
    and a launch of either kernel leaves device memory as it was: no
    element is added, whatever the buffers hold and whatever [k] is. *)
Theorem launch_with_fewer_elements_than_items (kern : kernel_name)
    (a : kernel_args) (m : memory) (cs : list Z) (n k Nthreads : Z)
    (schedule : list Z) :
  m !! arg_constants a = Some cs →
  cs !! 0%nat = Some n →
  (kern = Kernel_looped_add → cs !! 1%nat = Some k) →
  0 <= n < Nthreads → Int.in_range Nthreads →
  run_items (kernel_of kern) schedule Nthreads a m = Some m.
Proof.
  intros Hc Hcn Hck Hn HT. unfold run_items.
  apply each_nothing. intros gid _.
  assert (load m (arg_constants a) 0 = Some n) as L0.
  { by rewrite (load_lookup m _ cs). }
  destruct kern; simpl.
  - unfold looped_add. rewrite L0. simpl.
    rewrite (load_lookup m _ cs) by done.
    change (Z.to_nat 1) with 1%nat. rewrite (Hck eq_refl). simpl.
    rewrite (wrap_id Nthreads) by done.
    rewrite item_range_no_elements by done. simpl.
    unfold for_loop at 1.
    erewrite for_iter_ext; [apply for_iter_nothing|].
    intros j s. by apply for_loop_no_iterations.
  - unfold add. rewrite L0. simpl.
    rewrite (wrap_id Nthreads) by done.
    rewrite item_range_no_elements by done. simpl.
    by apply for_loop_no_iterations.
Qed.

(** Vectors of four elements and eight work-items. *)
Lemma launch_with_fewer_elements_than_items_witness :
  run_items (kernel_of Kernel_looped_add) (seqZ 0 8) 8 sample_args
    (sample_memory 4 [4; 3]) = Some (sample_memory 4 [4; 3]).
Proof.
  apply (launch_with_fewer_elements_than_items Kernel_looped_add sample_args
           (sample_memory 4 [4; 3]) [4; 3] 4 3 8 (seqZ 0 8)).
  - reflexivity.
  - reflexivity.
  - intros _. reflexivity.
  - lia.
  - unfold Int.in_range, Int.min_int, Int.max_int; lia.
Defined.

(** X4. With a number of iterations [k <= 0], a launch of [looped_add]
    assigns nothing: the loop of line 73 runs no pass and device memory is
    left as it was, whatever the buffers of the vectors are. The division
    [n / Nthreads] of line 68 has to be defined. *)
Theorem looped_add_without_iterations (a : kernel_args) (m : memory)
    (cs : list Z) (n k gsize : Z) (schedule : list Z) :
  m !! arg_constants a = Some cs →
  cs !! 0%nat = Some n → cs !! 1%nat = Some k → k <= 0 →
  is_Some (Int.div n (Int.wrap gsize)) →
  run_items looped_add schedule gsize a m = Some m.
Proof.
  intros Hc Hcn Hck Hk [ratio Hr]. unfold run_items.
  apply each_nothing. intros gid _. unfold looped_add.
  rewrite !(load_lookup m _ cs) by done.
  change (Z.to_nat 0) with 0%nat. change (Z.to_nat 1) with 1%nat.
  rewrite Hcn, Hck. simpl. unfold item_range. rewrite Hr. simpl.
  apply for_loop_no_iterations. lia.
Qed.

(** Two work-items on vectors of four elements, [k = 0]: [looped_add]
    leaves the zeros of the output, where [add] leaves the sums. *)
Lemma looped_add_without_iterations_witness :
  run_items looped_add [0; 1] 2 sample_args (sample_memory 4 [4; 0]) =
    Some (sample_memory 4 [4; 0]) ∧
  run_items add [0; 1] 2 sample_args (sample_memory 4 [4; 0]) =
    Some (<[2%nat := [11; 22; 33; 44]]> (sample_memory 4 [4; 0])).
Proof.
  split.
  - apply (looped_add_without_iterations sample_args
             (sample_memory 4 [4; 0]) [4; 0] 4 0 2 [0; 1]).
    + reflexivity.
    + reflexivity.
    + reflexivity.
    + lia.
    + vm_compute. eexists. reflexivity.
  - vm_compute. reflexivity.
Defined.

Section undefined_launches.
Context (a : kernel_args).

(** A run of steps is undefined as soon as one of them is undefined in
    every state that the steps before it can leave. *)
Lemma each_undefined {S} (I : S → Prop) (body : Z → S → option S)
    (js : list Z) (j : Z) (s : S) :
  (∀ j' s1 s2, I s1 → body j' s1 = Some s2 → I s2) →
  (∀ s1, I s1 → body j s1 = None) →
  j ∈ js → I s → each body js s = None.
Proof.
  intros Hstep Hj. revert s. induction js as [|j' js IH]; intros s Hin Hs.
  - by apply elem_of_nil in Hin.
  - simpl. apply elem_of_cons in Hin as [<-|Hin].
    + by rewrite Hj.
    + destruct (body j' s) as [s1|] eqn:E; simpl; [|done].
      apply IH; [done|]. by apply (Hstep j' s).
Qed.

Lemma buffer_of_length_kept cs p len (m m' : memory) :
  arg_v3 a ≠ arg_constants a →
  only_output a m m' → buffer_of_length a cs p len m →
  buffer_of_length a cs p len m'.
Proof.
  intros Hne [Hframe Hlen] [Hc Hp]. split.
  - by rewrite Hframe.
  - destruct (decide (p = arg_v3 a)) as [->|Hp3].
    + by rewrite Hlen.
    + by rewrite Hframe.
Qed.

Lemma add_element_outside cs p len (m : memory) :
  p ∈ [arg_v1 a; arg_v2 a; arg_v3 a] →
  buffer_of_length a cs p len m →
  add_element a (Z.of_nat len) m = None.
Proof.
  intros Hp [_ Hlen].
  destruct (m !! p) as [l|] eqn:E; simpl in Hlen; [|done].
  injection Hlen as <-.
  assert (load m p (Z.of_nat (length l)) = None) as Hload.
  { rewrite (load_lookup m _ l) by first [done|lia]. rewrite Nat2Z.id.
    by apply lookup_ge_None_2. }
  unfold add_element.
  apply elem_of_cons in Hp as [->|Hp]; [by rewrite Hload|].
  destruct (load m (arg_v1 a) _) as [x|]; simpl; [|done].
  apply elem_of_cons in Hp as [->|Hp]; [by rewrite Hload|].
  destruct (load m (arg_v2 a) _) as [y|]; simpl; [|done].
  apply elem_of_cons in Hp as [->|Hp]; [|by apply elem_of_nil in Hp].
  unfold store. rewrite E. simpl. unfold array_set.
  by rewrite decide_False by lia.
Qed.

End undefined_launches.

(** X5. The kernels check no index against the length of a buffer. When
    one of the three vector buffers has fewer elements than the
    [(n / Nthreads) * Nthreads] that the work-items go through, a launch of
    either kernel (with [k >= 1] for [looped_add]) is undefined: some
    work-item reads or writes past the end of that buffer. *)
Theorem launch_past_the_end_of_a_buffer (kern : kernel_name)
    (a : kernel_args) (m : memory) (cs l : list Z) (p : handle)
    (n k Nthreads : Z) (schedule : list Z) :
  separate a →
  m !! arg_constants a = Some cs → cs !! 0%nat = Some n →
  (kern = Kernel_looped_add → cs !! 1%nat = Some k ∧ 1 <= k) →
  0 <= n → Int.in_range n → 1 <= Nthreads → Int.in_range Nthreads →
  p ∈ [arg_v1 a; arg_v2 a; arg_v3 a] →
  m !! p = Some l → (length l < assigned n Nthreads)%nat →
  (∀ gid, 0 <= gid < Nthreads → gid ∈ schedule) →
  run_items (kernel_of kern) schedule Nthreads a m = None.
Proof.
  intros Hsep Hc Hcn Hck Hn Hnr HT HTr Hp Hl Hlen Hs.
  assert (run_items add schedule Nthreads a m = None) as Hadd.
  { unfold assigned in Hlen.
    destruct (ratio_bounds n Nthreads) as [Hr0 Hr1]; [lia..|].
    set (r := n / Nthreads) in *.
    set (len := Z.of_nat (length l)).
    assert (0 < r) as Hr by nia.
    assert (0 <= len / r < Nthreads) as Hgid.
    { split; [apply Z.div_pos; lia|]. apply Z.div_lt_upper_bound; lia. }
    assert (r * (len / r) <= len < r * (len / r + 1)) as Hin.
    { pose proof (Z.mul_div_le len r Hr).
      pose proof (Z.mul_succ_div_gt len r Hr). lia. }
    unfold run_items.
    apply (each_undefined (buffer_of_length a cs p (length l)) _ schedule
             (len / r)).
    - intros gid m1 m2 HI Hrun.
      apply (buffer_of_length_kept a cs p (length l) m1 m2);
        [apply Hsep| |done].
      by apply (add_only_output a gid Nthreads).
    - intros m1 HI. unfold add.
      rewrite (load_lookup m1 _ cs) by first [apply HI|lia].
      change (Z.to_nat 0) with 0%nat. rewrite Hcn. simpl.
      rewrite !wrap_id by int_lia.
      assert (item_range n Nthreads (len / r) =
              Some (r * (len / r), r * (len / r + 1))) as Hrange
        by (apply item_range_exact; first [assumption|lia]).
      destruct (item_range_in_range _ _ _ _ _ Hrange) as [Hstart Hstop].
      rewrite Hrange. simpl. rewrite for_loop_each by assumption.
      apply (each_undefined (buffer_of_length a cs p (length l)) _ _ len).
      + intros j m2 m3 HI2 Hrun.
        apply (buffer_of_length_kept a cs p (length l) m2 m3);
          [apply Hsep| |done].
        by apply (add_element_only_output a j).
      + intros m2 HI2. by apply (add_element_outside a cs p).
      + apply elem_of_seqZ. lia.
      + done.
    - by apply Hs.
    - split; [done|]. by rewrite Hl. }
  destruct kern; simpl; [|exact Hadd].
  destruct Hck as [Hck Hk]; [done|].
  rewrite (looped_add_launch a Hsep schedule Nthreads m k); [exact Hadd| |done].
  rewrite (load_lookup m _ cs) by first [done|lia]. exact Hck.
Qed.

(** The constants announce eight elements to buffers of four. *)
Lemma launch_past_the_end_of_a_buffer_witness :
  run_items (kernel_of Kernel_add) [0; 1] 2 sample_args
    (sample_memory 4 [8; 1]) = None.
Proof.
  apply (launch_past_the_end_of_a_buffer Kernel_add sample_args
           (sample_memory 4 [8; 1]) [8; 1] ((λ _, 0) <$> seqZ 0 4) 2%nat
           8 1 2 [0; 1]).
  - unfold separate; simpl; lia.
  - reflexivity.
  - reflexivity.
  - intros H. discriminate H.
  - lia.
  - unfold Int.in_range, Int.min_int, Int.max_int; lia.
  - lia.
  - unfold Int.in_range, Int.min_int, Int.max_int; lia.
  - simpl. apply elem_of_cons. right. apply elem_of_cons. right.
    apply elem_of_cons. by left.
  - reflexivity.
  - vm_compute; lia.
  - intros gid Hgid. rewrite !elem_of_cons. lia.
Defined.

Section repeated_launches.
Context (a : kernel_args) (Hsep : separate a).

Lemma load_only_output (m m' : memory) p i :
  only_output a m m' → p ≠ arg_v3 a → load m' p i = load m p i.
Proof. intros [Hframe _] Hp. unfold load. by rewrite Hframe. Qed.

Lemma add_item_as_assignments gid gsize n (m : memory) :
  load m (arg_constants a) 0 = Some n →
  is_Some (item_range n (Int.wrap gsize) (Int.wrap gid)) →
  add gid gsize a m = each (add_element a) (add_indices n gsize gid) m.
Proof.
  intros Hn [[start stop] E]. unfold add, add_indices. rewrite Hn. simpl.
  rewrite E. simpl. unfold for_loop. apply for_iter_each.
Qed.

Lemma add_ranges_defined schedule gsize n (m m' : memory) :
  load m (arg_constants a) 0 = Some n →
  run_items add schedule gsize a m = Some m' →
  Forall (λ gid, is_Some (item_range n (Int.wrap gsize) (Int.wrap gid)))
    schedule.
Proof.
  unfold run_items. revert m.
  induction schedule as [|gid schedule IH]; intros m Hn H; [done|].
  simpl in H. destruct (add gid gsize a m) as [m1|] eqn:E; simpl in H; [|done].
  constructor.
  - unfold add in E. rewrite Hn in E. simpl in E.
    by destruct (item_range _ _ _).
  - apply (IH m1); [|done]. rewrite <- Hn.
    apply load_only_output; [by apply (add_only_output a gid gsize)|].
    intros Heq. by apply Hsep.
Qed.

Lemma add_launch_as_assignments schedule gsize n (m : memory) :
  load m (arg_constants a) 0 = Some n →
  Forall (λ gid, is_Some (item_range n (Int.wrap gsize) (Int.wrap gid)))
    schedule →
  run_items add schedule gsize a m =
  each (add_element a) (concat (add_indices n gsize <$> schedule)) m.
Proof.
  unfold run_items. revert m.
  induction schedule as [|gid schedule IH]; intros m Hn H; [done|].
  apply Forall_cons in H as [Hgid H]. simpl.
  rewrite each_app, (add_item_as_assignments gid gsize n) by done.
  destruct (each (add_element a) (add_indices n gsize gid) m) as [m1|] eqn:E;
    simpl; [|done].
  apply IH; [|done]. rewrite <- Hn.
  apply load_only_output.
  - apply (each_only_output a (add_element a)
             (add_indices n gsize gid) m m1); [|done].
    apply add_element_only_output.
  - intros Heq. by apply Hsep.
Qed.

Lemma add_launch_idempotent schedule gsize (m m' : memory) :
  run_items add schedule gsize a m = Some m' →
  run_items add schedule gsize a m' = Some m'.
Proof.
  intros H. destruct (load m (arg_constants a) 0) as [n|] eqn:Hn.
  - pose proof (add_ranges_defined schedule gsize n m m' Hn H) as Hr.
    rewrite (add_launch_as_assignments schedule gsize n m) in H by done.
    rewrite (add_launch_as_assignments schedule gsize n m'); [| |done].
    + by apply (pass_idempotent a Hsep _ m).
    + rewrite <- Hn. apply load_only_output.
      * apply (each_only_output a (add_element a)
                 (concat (add_indices n gsize <$> schedule)) m m'); [|done].
        apply add_element_only_output.
      * intros Heq. by apply Hsep.
  - destruct schedule as [|gid schedule]; [done|].
    assert (add gid gsize a m = None) as E by (unfold add; by rewrite Hn).
    unfold run_items in H. cbn [each] in H. by rewrite E in H.
Qed.

Lemma looped_add_no_pass schedule gsize k (m m' : memory) :
  load m (arg_constants a) 1 = Some k → k <= 0 →
  run_items looped_add schedule gsize a m = Some m' → m' = m.
Proof.
  intros Hk Hk0. unfold run_items.
  induction schedule as [|gid schedule IH]; intros H; cbn [each] in H.
  - by injection H as <-.
  - assert (looped_add gid gsize a m = None ∨ looped_add gid gsize a m = Some m)
      as [E|E].
    { unfold looped_add.
      destruct (load m (arg_constants a) 0) as [n|]; simpl; [|by left].
      rewrite Hk. simpl.
      destruct (item_range _ _ _) as [[start stop]|]; simpl; [|by left].
      right. by apply for_loop_no_iterations. }
    + by rewrite E in H.
    + rewrite E in H. by apply IH.
Qed.

End repeated_launches.

(** X6. A launch is idempotent: when a launch of either kernel on device
    memory [m] is defined and leaves [m'], the same launch on [m'] is
    defined and leaves [m'] again. This holds for every memory, global
    size, number of iterations and order of the work-items, with an output
    buffer of its own. *)
Theorem launch_again_changes_nothing (kern : kernel_name) (a : kernel_args)
    (m m' : memory) (schedule : list Z) (gsize : Z) :
  separate a →
  run_items (kernel_of kern) schedule gsize a m = Some m' →
  run_items (kernel_of kern) schedule gsize a m' = Some m'.
Proof.
  intros Hsep H. destruct kern; simpl in *;
    [|by apply (add_launch_idempotent a Hsep schedule gsize m m')].
  destruct (load m (arg_constants a) 1) as [k|] eqn:Hk.
  - destruct (decide (1 <= k)) as [Hk1|Hk0].
    + rewrite (looped_add_launch a Hsep schedule gsize m k) in H by done.
      rewrite (looped_add_launch a Hsep schedule gsize m' k).
      * by apply (add_launch_idempotent a Hsep schedule gsize m m').
      * rewrite <- Hk. apply (load_only_output a).
        -- apply (each_only_output a (λ gid, add gid gsize a) schedule m m');
             [|done].
           intros gid m1 m2. apply add_only_output.
        -- intros Heq. by apply Hsep.
      * done.
    + assert (m' = m) as ->; [|done].
      apply (looped_add_no_pass a schedule gsize k m m'); [done|lia|done].
  - destruct schedule as [|gid schedule]; [done|].
    assert (looped_add gid gsize a m = None) as E.
    { unfold looped_add.
      destruct (load m (arg_constants a) 0) as [n|]; simpl; [|done].
      by rewrite Hk. }
    unfold run_items in H. cbn [each] in H. by rewrite E in H.
Qed.

(** Two work-items of [add] on vectors of four elements, twice. *)
Lemma launch_again_changes_nothing_witness :
  let m := sample_memory 4 [4; 1] in
  let m' := <[2%nat := [11; 22; 33; 44]]> m in
  run_items (kernel_of Kernel_add) [0; 1] 2 sample_args m = Some m' ∧
  run_items (kernel_of Kernel_add) [0; 1] 2 sample_args m' = Some m'.
Proof.
  intros m m'.
  assert (separate sample_args) as Hsep by (unfold separate; simpl; lia).
  assert (run_items (kernel_of Kernel_add) [0; 1] 2 sample_args m = Some m')
    as H by (vm_compute; reflexivity).
  split; [exact H|].
  exact (launch_again_changes_nothing Kernel_add sample_args m m' [0; 1] 2
           Hsep H).
Defined.

(** X7. The work-items of a launch do not race. A work-item is the list
    of its assignments [v3[j] = v1[j] + v2[j]], in order; however the lists
    of the [Nthreads] work-items are interleaved, the assignments leave in
    the output buffer the sums of the whole vectors, which is what the
    work-items leave when they run one after the other. *)
Theorem work_items_do_not_race (a : kernel_args) (m : memory)
    (l1 l2 l3 cs : list Z) (n k Nthreads : Z) :
  separate a →
  m !! arg_v1 a = Some l1 → m !! arg_v2 a = Some l2 →
  m !! arg_v3 a = Some l3 → m !! arg_constants a = Some cs →
  cs !! 0%nat = Some n → cs !! 1%nat = Some k →
  0 <= n → Int.in_range n → 1 <= Nthreads → Int.in_range Nthreads →
  (Nthreads | n) →
  length l1 = Z.to_nat n → length l2 = Z.to_nat n →
  length l3 = Z.to_nat n →
  let sums := <[arg_v3 a := zip_with Int.add l1 l2]> m in
  (∀ gid, 0 <= gid < Nthreads →
     add gid Nthreads a m
     = each (add_element a) (add_indices n Nthreads gid) m ∧
     looped_add gid Nthreads a m
     = each (add_element a) (looped_add_indices n k Nthreads gid) m) ∧
  (∀ js, interleaved (add_indices n Nthreads <$> seqZ 0 Nthreads) js →
     each (add_element a) js m = Some sums) ∧
  (1 <= k →
   ∀ js, interleaved (looped_add_indices n k Nthreads <$> seqZ 0 Nthreads)
           js →
     each (add_element a) js m = Some sums).
Proof.
  intros Hsep Hv1 Hv2 Hv3 Hc Hcn Hck Hn Hnr HT HTr Hdiv Hl1 Hl2 Hl3 sums.
  assert (0 < Nthreads) as HT' by lia.
  assert (∀ gid, gid ∈ seqZ 0 Nthreads ↔ 0 <= gid < Nthreads) as Hs.
  { intros gid. rewrite elem_of_seqZ. lia. }
  split; [|split].
  - intros gid Hgid.
    assert (is_Some (item_range n (Int.wrap Nthreads) (Int.wrap gid))) as Hr.
    { rewrite !wrap_id by int_lia.
      rewrite item_range_exact by first [assumption|lia]. by eexists. }
    split.
    + by apply (add_as_assignments a m cs n).
    + by apply (looped_add_as_assignments a m cs n k).
  - intros js Hjs.
    rewrite (add_interleaved a Hsep m l1 l2 l3 cs n Nthreads) by assumption.
    by apply (launch_add_everywhere a Hsep m l1 l2 l3 cs n Nthreads).
  - intros Hk js Hjs.
    rewrite (looped_add_interleaved a Hsep m l1 l2 l3 cs n k Nthreads)
      by assumption.
    by apply (launch_looped_add_everywhere a Hsep m l1 l2 l3 cs n k Nthreads).
Qed.

(** Two work-items on vectors of four elements: the assignments of the
    second one between those of the first. *)
Lemma work_items_do_not_race_witness :
  interleaved (add_indices 4 2 <$> seqZ 0 2) [0; 2; 3; 1] ∧
  each (add_element sample_args) [0; 2; 3; 1] (sample_memory 4 [4; 3]) =
  Some (<[2%nat := [11; 22; 33; 44]]> (sample_memory 4 [4; 3])).
Proof.
  assert (interleaved (add_indices 4 2 <$> seqZ 0 2) [0; 2; 3; 1]) as Hjs.
  { change (add_indices 4 2 <$> seqZ 0 2) with [[0; 1]; [2; 3]].
    apply (interleaved_step [] 0 [1] [[2; 3]]).
    apply (interleaved_step [[1]] 2 [3] []).
    apply (interleaved_step [[1]] 3 [] []).
    apply (interleaved_step [] 1 [] [[]]).
    apply interleaved_done. by repeat constructor. }
  split; [exact Hjs|].
  refine (eq_trans
    (proj1 (proj2 (work_items_do_not_race sample_args (sample_memory 4 [4; 3])
       ((λ i, i + 1) <$> seqZ 0 4) ((λ i, 10 * (i + 1)) <$> seqZ 0 4)
       ((λ _, 0) <$> seqZ 0 4) [4; 3] 4 3 2
       _ _ _ _ _ _ _ _ _ _ _ _ _ _ _)) [0; 2; 3; 1] Hjs) _).
  - unfold separate; simpl; lia.
  - reflexivity.
  - reflexivity.
  - reflexivity.
  - reflexivity.
  - reflexivity.
  - reflexivity.
  - lia.
  - unfold Int.in_range, Int.min_int, Int.max_int; lia.
  - lia.
  - unfold Int.in_range, Int.min_int, Int.max_int; lia.
  - exists 2. lia.
  - reflexivity.
  - reflexivity.
  - reflexivity.
  - vm_compute. reflexivity.
Defined.

(** ** [timeAddVectorsCPU] for every length and number of passes
       (lines 6-27) *)

Section cpu_function.
Context (e : env) (n k : Z).
Context (Hn : 0 <= n) (Hnr : Int.in_range n).





End cpu_function.



(** ** The ways a run ends (lines 29-51, 95-99, 186) *)

Section outcomes.
Context (e : env).

Lemma main_no_platform s :
  env_platforms e = [] → main e s = Exit 1 (printed s no_platform_message).
Proof.
  intros Hp. unfold main, mbind, host_bind.
  by rewrite select_device_no_platform.
Qed.

Lemma main_no_device p ps s :
  env_platforms e = p :: ps → platform_devices p = [] →
  main e s = Exit 1 (printed s no_device_message).
Proof.
  intros Hp Hd. unfold main, mbind, host_bind.
  by rewrite (select_device_no_device e p ps).
Qed.

Lemma main_one_device p ps d0 s :
  env_platforms e = p :: ps → platform_devices p = [d0] →
  main e s = Undefined.
Proof.
  intros Hp Hd. unfold main, mbind, host_bind.
  by rewrite (select_device_one e p ps d0).
Qed.

Lemma main_build_failure p ps d0 d1 ds s :
  env_platforms e = p :: ps → platform_devices p = d0 :: d1 :: ds →
  env_build_status e ≠ CL_SUCCESS →
  main e s = Exit 1 (printed s (build_failure_message e)).
Proof.
  intros Hp Hd Hb. unfold main, mbind, host_bind.
  rewrite (select_device_two e p ps d0 d1 ds) by done.
  by rewrite build_program_failure.
Qed.

(** The five cases of a run, by the number of platforms, the number of
    devices of the first one, and the status of the build. *)
Lemma main_cases s :
  (env_platforms e = [] ∧
   main e s = Exit 1 (printed s no_platform_message)) ∨
  (first_platform_devices e 0 ∧
   main e s = Exit 1 (printed s no_device_message)) ∨
  (first_platform_devices e 1 ∧ main e s = Undefined) ∨
  ((∃ count, first_platform_devices e (2 + count)) ∧
   env_build_status e ≠ CL_SUCCESS ∧
   main e s = Exit 1 (printed s (build_failure_message e))) ∨
  ((∃ count, first_platform_devices e (2 + count)) ∧
   env_build_status e = CL_SUCCESS ∧
   main e s =
   Done 0 (printed
             (advance s
                (measured_memory e 100000 1000 (host_next_handle s)
                   (host_device s))
                8 (measured_calls 100000 1000 10 (host_next_handle s)) 6)
             (reports e (host_clock_reads s)))).
Proof.
  destruct (env_platforms e) as [|p ps] eqn:Hp.
  { left. split; [reflexivity|]. by apply main_no_platform. }
  right. destruct (platform_devices p) as [|d0 [|d1 ds]] eqn:Hd.
  - left. split; [|by apply (main_no_device p ps)].
    exists p, ps. by rewrite Hd.
  - right. left. split; [|by apply (main_one_device p ps d0)].
    exists p, ps. by rewrite Hd.
  - right. right.
    assert (∃ count, first_platform_devices e (2 + count)) as Hcount.
    { exists (length ds), p, ps. rewrite Hp, Hd. split; reflexivity. }
    destruct (decide (env_build_status e = CL_SUCCESS)) as [Hb|Hb].
    + right. split; [exact Hcount|]. split; [exact Hb|].
      by apply (main_Done e p ps d0 d1 ds).
    + left. split; [exact Hcount|]. split; [exact Hb|].
      by apply (main_build_failure p ps d0 d1 ds).
Qed.

Lemma first_platform_devices_agree count count' :
  first_platform_devices e count → first_platform_devices e count' →
  count = count'.
Proof.
  intros (p & ps & Hp & Hc) (p' & ps' & Hp' & Hc').
  rewrite Hp in Hp'. injection Hp' as <- <-. congruence.
Qed.

Lemma first_platform_devices_platform count :
  first_platform_devices e count → env_platforms e ≠ [].
Proof. intros (p & ps & Hp & _). by rewrite Hp. Qed.

End outcomes.

(** X9. The exit code of a run is [0] or [1], and each is returned in
    the expected case only. A run returns [1] only when there is no
    platform, when the first platform has no device, or when the build
    fails on a first platform of two devices or more, and then it has
    printed the message of that failure and nothing else; it returns [0]
    only when the first platform has two devices or more and the build
    succeeds, with the two reports as its output; and it has no exit code
    (the choice of the device is undefined) exactly when the first
    platform has one device. *)
Theorem run_outcomes (e : env) :
  (run e = None ↔ first_platform_devices e 1) ∧
  (∀ code out, run e = Some (code, out) →
     (code = 0 ∧ (∃ count, first_platform_devices e (2 + count)) ∧
      env_build_status e = CL_SUCCESS ∧ out = reports e 0) ∨
     (code = 1 ∧
      ((env_platforms e = [] ∧ out = no_platform_message) ∨
       (first_platform_devices e 0 ∧ out = no_device_message) ∨
       ((∃ count, first_platform_devices e (2 + count)) ∧
        env_build_status e ≠ CL_SUCCESS ∧
        out = build_failure_message e)))).
Proof.
  unfold run.
  destruct (main_cases e initial_state)
    as [[Hp ->]|[[Hd ->]|[[Hd ->]|[(Hd & Hb & ->)|(Hd & Hb & ->)]]]].
  - split.
    + split; [intros H; discriminate H|].
      intros H%first_platform_devices_platform. by destruct H.
    + intros code out H. injection H as <- <-. right.
      split; [reflexivity|]. left. split; [exact Hp|reflexivity].
  - split.
    + split; [intros H; discriminate H|]. intros H.
      pose proof (first_platform_devices_agree e _ _ Hd H) as Hc.
      discriminate Hc.
    + intros code out H. injection H as <- <-. right.
      split; [reflexivity|]. right. left. split; [exact Hd|reflexivity].
  - split; [split; [intros _; exact Hd|reflexivity]|].
    intros code out H. discriminate H.
  - split.
    + split; [intros H; discriminate H|]. intros H. destruct Hd as [c Hd].
      pose proof (first_platform_devices_agree e _ _ Hd H) as Hc.
      discriminate Hc.
    + intros code out H. injection H as <- <-. right.
      split; [reflexivity|]. right. right.
      split; [exact Hd|]. split; [exact Hb|reflexivity].
  - split.
    + split; [intros H; discriminate H|]. intros H. destruct Hd as [c Hd].
      pose proof (first_platform_devices_agree e _ _ Hd H) as Hc.
      discriminate Hc.
    + intros code out H. injection H as <- <-. left.
      split; [reflexivity|]. split; [exact Hd|]. split; [exact Hb|].
      reflexivity.
Qed.



(** X11. The output and the exit code of a run do not depend on the
    contents of memory that is not initialised: two installations with the
    same platforms and devices, the same result of the build and the same
    clock give the same run, whatever the arrays of the host and the
    buffers of the device hold when they are created. *)
Theorem run_independent_of_uninitialised_memory (e e' : env) :
  env_platforms e = env_platforms e' →
  env_build_status e = env_build_status e' →
  env_build_log e = env_build_log e' →
  (∀ i, env_clock e i = env_clock e' i) →
  env_CLOCKS_PER_SEC e = env_CLOCKS_PER_SEC e' →
  run e = run e'.
Proof.
  intros Hp Hb Hl Hc Hs.
  assert (∀ count, first_platform_devices e count →
                   first_platform_devices e' count) as Hd.
  { intros count (p & ps & E & Hcount). exists p, ps. by rewrite <- Hp. }
  assert (reports e 0 = reports e' 0) as Hr.
  { unfold reports, measured. cbv zeta.
    cbn [main_CPUtime main_GPUtime1 main_GPUtime2].
    unfold seconds. rewrite !Hc, Hs. reflexivity. }
  unfold run.
  destruct (main_cases e initial_state)
    as [[H ->]|[[H ->]|[[H ->]|[([c H] & Hbe & ->)|([c H] & Hbe & ->)]]]].
  - rewrite main_no_platform by congruence. reflexivity.
  - apply Hd in H as (p & ps & E & Hcount).
    rewrite (main_no_device e' p ps); [reflexivity|done|].
    by apply length_zero_iff_nil.
  - apply Hd in H as (p & ps & E & Hcount).
    destruct (platform_devices p) as [|d0 [|d1 ds]] eqn:Ed;
      try discriminate Hcount.
    by rewrite (main_one_device e' p ps d0).
  - apply Hd in H as (p & ps & E & Hcount).
    destruct (platform_devices p) as [|d0 [|d1 ds]] eqn:Ed;
      try discriminate Hcount.
    rewrite (main_build_failure e' p ps d0 d1 ds) by congruence.
    unfold printed, build_failure_message. cbn [host_stdout].
    by rewrite Hl.
  - apply Hd in H as (p & ps & E & Hcount).
    destruct (platform_devices p) as [|d0 [|d1 ds]] eqn:Ed;
      try discriminate Hcount.
    rewrite (main_Done e' p ps d0 d1 ds) by congruence.
    unfold printed, advance, initial_state.
    cbn [host_stdout host_clock_reads]. by rewrite Hr.
Qed.

(** Two installations that differ in what uninitialised memory holds. *)
Lemma run_independent_of_uninitialised_memory_witness :
  env_indeterminate sample_env "C" 0 ≠ env_indeterminate other_garbage_env "C" 0
  ∧ run sample_env = run other_garbage_env.
Proof.
  split; [vm_compute; discriminate|].
  apply (run_independent_of_uninitialised_memory sample_env other_garbage_env).
  - reflexivity.
  - reflexivity.
  - reflexivity.
  - intros i. reflexivity.
  - reflexivity.
Defined.

(** ** The measurements and the reports (lines 101-185) *)

(** X12. A complete sequence of measurements reads the clock six times,
    and each of the three durations is the difference of two consecutive
    readings divided by [CLOCKS_PER_SEC]: readings 0 and 1 for the CPU,
    2 and 3 for the first device path, 4 and 5 for the second. The CPU
    time is narrowed to [float]; the two GPU times stay [double]. *)
Theorem durations_from_six_clock_readings (e : env) (s : host_state) :
  ∃ l s',
    measure e s = Done l s' ∧
    host_clock_reads s' = (6 + host_clock_reads s)%nat ∧
    let t i := env_clock e (i + host_clock_reads s)%nat in
    let per_second := Time.double_of_Z (env_CLOCKS_PER_SEC e) in
    main_CPUtime l =
      Time.float_of_double
        (Time.div (Time.double_of_Z (t 1%nat - t 0%nat)) per_second) ∧
    main_GPUtime1 l =
      Time.div (Time.double_of_Z (t 3%nat - t 2%nat)) per_second ∧
    main_GPUtime2 l =
      Time.div (Time.double_of_Z (t 5%nat - t 4%nat)) per_second.
Proof.
  eexists _, _. split; [apply measure_Done|].
  split; [reflexivity|]. cbv zeta. unfold measured, seconds.
  cbn [main_CPUtime main_GPUtime1 main_GPUtime2].
  split; [reflexivity|]. split; reflexivity.
Qed.

(** X13. A GPU time of zero, which is what two equal readings of the
    clock give, is no error: the division [CPUtime / GPUtime] of lines 167
    and 177 is that of the floating-point numbers. With a positive CPU
    time the report prints an infinite ratio followed by
    [" times faster!"]; with a CPU time of zero as well, the ratio is not
    a number and the report says [" times slower :("]. *)
Theorem report_with_zero_gpu_time (header : string) (CPUtime : spec_float)
    (s : host_state) :
  (∀ e t m ex,
     Time.double_of_Z (env_CLOCKS_PER_SEC e) = S754_finite false m ex →
     seconds e t t = S754_zero false) ∧
  ∃ ratio word,
    report header CPUtime (S754_zero false) s =
    Done tt (printed s
      [ Text header; Endl;
        Text "CPU time: "; Float CPUtime; Endl;
        Text "GPU time: "; Double (S754_zero false); Endl;
        Text "GPU is "; Double ratio; Text word; Endl ]) ∧
    match CPUtime with
    | S754_finite false _ _ | S754_infinity false =>
        ratio = S754_infinity false ∧ word = " times faster!"
    | S754_finite true _ _ | S754_infinity true =>
        ratio = S754_infinity true ∧ word = " times slower :("
    | S754_zero _ | S754_nan =>
        ratio = S754_nan ∧ word = " times slower :("
    end.
Proof.
  split.
  { intros e t m ex H. unfold seconds. rewrite Z.sub_diag, H. reflexivity. }
  exists (Time.div CPUtime (S754_zero false)),
         (verdict (Time.div CPUtime (S754_zero false))).
  split; [apply report_Done|].
  destruct CPUtime as [[]|[]| |[] m ex]; split; reflexivity.
Qed.

(** ** The device paths on any vectors (lines 125-164) *)

Section any_vectors.

Lemma zip_with_add_exact (A B : list Z) :
  Forall2 (λ x y, Int.in_range (x + y)) A B →
  zip_with Int.add A B = zip_with Z.add A B.
Proof.
  induction 1 as [|x y A B Hxy _ IH]; simpl; [done|].
  by rewrite IH, add_id.
Qed.

End any_vectors.

(** X14. The two device paths and the loop nest of the CPU agree on any
    vectors, not only on those that [main] constructs: for arrays [A] and
    [B] of [n >= 1] elements whose sums are values of [int], a number of
    work-items that divides [n] and [k >= 1], the first device path, the
    second device path run after it, and the loops of lines 19-23 all
    leave [A[i] + B[i]] in every element of [C], whatever [C] held. *)
Theorem device_paths_agree_on_any_vectors (e : env) (n k Nthreads : Z)
    (A B C : list Z) (s : host_state) :
  1 <= n → Int.in_range n → 1 <= Nthreads → Int.in_range Nthreads →
  (Nthreads | n) → 1 <= k →
  length A = Z.to_nat n → length B = Z.to_nat n → length C = Z.to_nat n →
  Forall2 (λ x y, Int.in_range (x + y)) A B →
  ∃ t1 s1 t2 s2,
    gpu_version1 e n (Functor Kernel_looped_add Nthreads) [n; k]
      {| vec_A := A; vec_B := B; vec_C := C |} s
    = Done (t1, zip_with Z.add A B) s1 ∧
    gpu_version2 e n k (Functor Kernel_add Nthreads) [n; k] A B
      (zip_with Z.add A B) s1
    = Done (t2, zip_with Z.add A B) s2 ∧
    cpu_add_loops n k {| vec_A := A; vec_B := B; vec_C := C |}
    = Some {| vec_A := A; vec_B := B; vec_C := zip_with Z.add A B |}.
Proof.
  intros Hn1 Hnr HT HTr Hdiv Hk HA HB HC Hsums.
  assert (0 <= n) as Hn by lia.
  assert (0 < Nthreads) as HT' by lia.
  rewrite <- (zip_with_add_exact A B Hsums).
  assert (length (zip_with Int.add A B) = Z.to_nat n) as HC'
    by (rewrite length_zip_with; lia).
  pose proof (gpu_version1_advance e n k Nthreads A B C
                Hn Hnr HT' HTr Hdiv Hk HA HB HC s (host_device s) 0 [] 0)
    as H1.
  cbv zeta in H1. revert H1. generalize (advance_start s).
  generalize (advance s (host_device s) 0 [] 0). intros s0 -> H1.
  eexists _, _, _, _. split; [exact H1|]. split.
  - apply (gpu_version2_advance e n k Nthreads A B (zip_with Int.add A B)
             Hn Hnr HT' HTr Hdiv Hk HA HB HC').
  - by apply cpu_add_loops_sums.
Qed.

(** Vectors of four elements, two work-items and three passes. *)
Lemma device_paths_agree_on_any_vectors_witness :
  ∃ t1 s1 t2 s2,
    gpu_version1 sample_env 4 (Functor Kernel_looped_add 2) [4; 3]
      {| vec_A := [1; -2; 3; 40]; vec_B := [10; 20; -30; 2];
         vec_C := [7; 7; 7; 7] |} initial_state
    = Done (t1, [11; 18; -27; 42]) s1 ∧
    gpu_version2 sample_env 4 3 (Functor Kernel_add 2) [4; 3]
      [1; -2; 3; 40] [10; 20; -30; 2] [11; 18; -27; 42] s1
    = Done (t2, [11; 18; -27; 42]) s2.
Proof.
  destruct (device_paths_agree_on_any_vectors sample_env 4 3 2
              [1; -2; 3; 40] [10; 20; -30; 2] [7; 7; 7; 7] initial_state)
    as (t1 & s1 & t2 & s2 & H1 & H2 & _).
  - lia.
  - unfold Int.in_range, Int.min_int, Int.max_int; lia.
  - lia.
  - unfold Int.in_range, Int.min_int, Int.max_int; lia.
  - exists 2. lia.
  - lia.
  - reflexivity.
  - reflexivity.
  - reflexivity.
  - repeat constructor;
      unfold Int.in_range, Int.min_int, Int.max_int; lia.
  - exists t1, s1, t2, s2. split; [exact H1|exact H2].
Defined.

(** ** The direction of the transfers (lines 131-163) *)

Section directions.
Context (n k Nthreads : Z) (h : handle).



End directions.


(** ** Other values of the constants of lines 102-104 *)

Section vectors_of_main.
Context (e : env) (n : Z) (Hn : 0 <= n) (Hnr : Int.in_range n).


Lemma lookup_uninitialised name (i : nat) :
  (i < Z.to_nat n)%nat →
  uninitialised e name n !! i = Some (env_indeterminate e name (Z.of_nat i)).
Proof.
  intros Hi. unfold uninitialised.
  rewrite list_lookup_fmap, lookup_seqZ_lt by lia. done.
Qed.

End vectors_of_main.

Section other_constants.
Context (e : env) (n k Nthreads : Z) (A B C : list Z).
Context (Hn : 0 <= n) (Hnr : Int.in_range n).
Context (HT : 1 <= Nthreads) (HTr : Int.in_range Nthreads).
Context (Hk : 1 <= k).
Context (HA : length A = Z.to_nat n) (HB : length B = Z.to_nat n).
Context (HC : length C = Z.to_nat n).

(** The first device path when [Nthreads] need not divide [n]. *)
Lemma gpu_version1_remainder s m handles cs reads :
  let h := (handles + host_next_handle s)%nat in
  let output :=
    launch_output n Nthreads A B (uninitialised e "buffer_C" n) in
  gpu_version1 e n (Functor Kernel_looped_add Nthreads) [n; k]
    {| vec_A := A; vec_B := B; vec_C := C |}
    (advance s m handles cs reads) =
  Done (seconds e (env_clock e (reads + host_clock_reads s))
                  (env_clock e (S reads + host_clock_reads s)),
        output)
       (advance s
          (<[(2 + h)%nat := output]>
             (<[(3 + h)%nat := [n; k]]>
                (<[(1 + h)%nat := B]>
                   (<[h := A]>
                      (created e ("buffer_A", "buffer_B", "buffer_C",
                                  "buffer_constants") n h m)))))
          (4 + handles) (cs ++ version1_calls n Nthreads h) (2 + reads)).
Proof.
  intros h output. unfold gpu_version1.
  pose proof (assigned_le n Nthreads Hn ltac:(lia)) as Hle.
  host_step clock_advance.
  do 4 host_step create_buffer_advance.
  rewrite !elements_of_bytes by lia.
  simpl vec_A. simpl vec_B. simpl vec_C.
  erewrite bind_Done;
    [|by apply (enqueueWriteBuffer_advance _ _ n _ _
                  (uninitialised e "buffer_A" n)); host_side].
  erewrite bind_Done;
    [|by apply (enqueueWriteBuffer_advance _ _ n _ _
                  (uninitialised e "buffer_B" n)); host_side].
  erewrite bind_Done;
    [|by apply (enqueueWriteBuffer_advance _ _ 2 _ _
                  (uninitialised e "buffer_constants" 2)); host_side].
  erewrite bind_Done;
    [|apply call_advance;
      by apply (launch_whole_ranges Kernel_looped_add _ _ A B
                  (uninitialised e "buffer_C" n) [n; k] n k Nthreads);
         first [ host_side
               | by rewrite ?length_uninitialised; lia
               | by intros _
               | intros gid; cbn [functor_global];
                 rewrite elem_of_seqZ; lia ] ].
  erewrite bind_Done;
    [|by apply (enqueueReadBuffer_advance _ _ n _ _ output);
         first [ host_side
               | unfold output;
                 by rewrite length_launch_output, length_uninitialised
                   by (rewrite ?length_uninitialised; lia) ] ].
  host_step clock_advance.
  unfold mret, host_ret, created, version1_calls.
  rewrite <- !app_assoc. reflexivity.
Qed.

End other_constants.



(** X17. When the number of work-items does not divide the length, the
    first device path still runs to its end, and the array [C] that it
    reads back holds the sums in its first [(n / Nthreads) * Nthreads]
    elements only: each of the [n mod Nthreads] last elements is what the
    allocation of [buffer_C] left on the device, and not the [0] that the
    host stored in [C], since [C] is never sent to the device. *)
Theorem first_path_with_a_remainder (e : env) (n k Nthreads : Z)
    (A B C : list Z) (s : host_state) :
  1 <= n → Int.in_range n → 1 <= Nthreads → Int.in_range Nthreads →
  1 <= k →
  length A = Z.to_nat n → length B = Z.to_nat n → length C = Z.to_nat n →
  ∃ t s' C1,
    gpu_version1 e n (Functor Kernel_looped_add Nthreads) [n; k]
      {| vec_A := A; vec_B := B; vec_C := C |} s = Done (t, C1) s' ∧
    length C1 = Z.to_nat n ∧
    (∀ i x y, (i < assigned n Nthreads)%nat →
       A !! i = Some x → B !! i = Some y → C1 !! i = Some (Int.add x y)) ∧
    (∀ i, (assigned n Nthreads ≤ i < Z.to_nat n)%nat →
       C1 !! i = Some (env_indeterminate e "buffer_C" (Z.of_nat i))).
Proof.
  intros Hn1 Hnr HT HTr Hk HA HB HC. assert (0 <= n) as Hn by lia.
  pose proof (assigned_le n Nthreads Hn ltac:(lia)) as Hle.
  pose proof (gpu_version1_remainder e n k Nthreads A B C Hn Hnr HT HTr Hk
                HA HB HC s (host_device s) 0 [] 0) as H.
  cbv zeta in H. revert H. generalize (advance_start s).
  generalize (advance s (host_device s) 0 [] 0). intros s0 -> H.
  eexists _, _, _. split; [exact H|]. split; [|split].
  - rewrite length_launch_output, length_uninitialised
      by (rewrite ?length_uninitialised; lia). done.
  - intros i x y. apply lookup_launch_output_lt.
  - intros i Hi. rewrite lookup_launch_output_ge by lia.
    apply lookup_uninitialised. lia.
Qed.

(** Vectors of five elements and two work-items, on a device whose fresh
    buffers hold [7, 8, 9, ...]: the last element read back is the [11]
    of the buffer, where the host had stored [0]. *)
Lemma first_path_with_a_remainder_witness :
  ∃ t s' C1,
    gpu_version1 other_garbage_env 5 (Functor Kernel_looped_add 2) [5; 1]
      {| vec_A := [0; 1; 2; 3; 4]; vec_B := [4; 3; 2; 1; 0];
         vec_C := [0; 0; 0; 0; 0] |} initial_state = Done (t, C1) s' ∧
    C1 !! 3%nat = Some 4 ∧ C1 !! 4%nat = Some 11.
Proof.
  destruct (first_path_with_a_remainder other_garbage_env 5 1 2
              [0; 1; 2; 3; 4] [4; 3; 2; 1; 0] [0; 0; 0; 0; 0] initial_state)
    as (t & s' & C1 & H & _ & Hlt & Hge).
  - lia.
  - unfold Int.in_range, Int.min_int, Int.max_int; lia.
  - lia.
  - unfold Int.in_range, Int.min_int, Int.max_int; lia.
  - lia.
  - reflexivity.
  - reflexivity.
  - reflexivity.
  - exists t, s', C1. split; [exact H|]. split.
    + apply (Hlt 3%nat 3 1); [vm_compute; lia|reflexivity|reflexivity].
    + rewrite (Hge 4%nat) by (vm_compute; lia). reflexivity.
Defined.
